(** * OLX car-cover scraper: a shallow embedding of [olx_scrapper.py]

    The development follows the layout of the script:

    - Python text ([str]) as a list of Unicode code points, with the
      whitespace table used by [str.strip] and by [\s];
    - the two regular expressions of [extract_listings], as terms of a small
      backtracking matcher with the priorities of Python's [re] (leftmost
      start, alternatives left to right, greedy repetition);
    - the BeautifulSoup tree as a rose tree, a [Tag] as a node together with
      the chain of its ancestors;
    - [fetch_page], [extract_listings], [next_page_url], [scrape] and
      [save_csv], the effectful ones in a state monad over the console, the
      file system, the clock and the requests sent.

    What the script takes from outside the repository is a parameter of the
    development (class [Platform]): the Unicode table behind [\d], the URL
    resolution [urllib.parse.urljoin], the HTML parser behind
    [BeautifulSoup(html, "html.parser")] and the network behind
    [session.get].  Library calls are modelled by their normal return.
    For [urljoin] the development also has a model written after the
    library's source (module [urllib_parse]); what is proved about the [url]
    of a record is proved for it. *)

From Stdlib Require Import ZArith NArith List Ascii String Lia Bool QArith.
From Stdlib Require Import DecimalString DecimalZ.
From stdpp Require Import gmap.

Local Open Scope N_scope.

(* ===================================================================== *)
(** ** Text *)
(* ===================================================================== *)

(** A Python [str]: a sequence of code points. *)
Abbreviation pystr := (list N).

(** The bytes of a literal written in this file. *)
Definition bytes_of (s : string) : list N :=
  map N_of_ascii (list_ascii_of_string s).

(** UTF-8 decoding of a literal (the source file is UTF-8 too), so that
    [txt "₹ 1,200"] is the six code points of the Python literal. *)
Fixpoint utf8_decode (bs : list N) : pystr :=
  match bs with
  | [] => []
  | b0 :: r0 =>
    if b0 <? 128 then b0 :: utf8_decode r0
    else if b0 <? 224 then
      match r0 with
      | b1 :: r1 => ((b0 - 192) * 64 + (b1 - 128)) :: utf8_decode r1
      | [] => []
      end
    else if b0 <? 240 then
      match r0 with
      | b1 :: b2 :: r2 =>
        ((b0 - 224) * 4096 + (b1 - 128) * 64 + (b2 - 128)) :: utf8_decode r2
      | _ => []
      end
    else
      match r0 with
      | b1 :: b2 :: b3 :: r3 =>
        ((b0 - 240) * 262144 + (b1 - 128) * 4096 + (b2 - 128) * 64 + (b3 - 128))
          :: utf8_decode r3
      | _ => []
      end
  end.

Definition txt (s : string) : pystr := utf8_decode (bytes_of s).

(** [str(n)] and [f"{n}"] for an [int]. *)
Definition str_of_int (z : Z) : pystr :=
  bytes_of (NilZero.string_of_int (Z.to_int z)).

(** [str.isspace] of one character ([Py_UNICODE_ISSPACE]): the table behind
    [str.strip()] and behind [\s] in a [str] pattern. *)
Definition isspace (c : N) : bool :=
  ((9 <=? c) && (c <=? 13)) || ((28 <=? c) && (c <=? 32))
  || (c =? 133) || (c =? 160) || (c =? 5760)
  || ((8192 <=? c) && (c <=? 8202))
  || (c =? 8232) || (c =? 8233) || (c =? 8239) || (c =? 8287) || (c =? 12288).

Fixpoint lstrip (s : pystr) : pystr :=
  match s with
  | c :: r => if isspace c then lstrip r else s
  | [] => []
  end.

(** [s.strip()] *)
Definition strip (s : pystr) : pystr := rev (lstrip (rev (lstrip s))).

(** [sep.join(parts)] *)
Fixpoint join (sep : pystr) (parts : list pystr) : pystr :=
  match parts with
  | [] => []
  | [p] => p
  | p :: rest => p ++ sep ++ join sep rest
  end.

Fixpoint starts_with (pre s : pystr) : bool :=
  match pre, s with
  | [], _ => true
  | a :: pre', b :: s' => (a =? b) && starts_with pre' s'
  | _ :: _, [] => false
  end.

(** [needle in hay] *)
Fixpoint contains (needle hay : pystr) : bool :=
  starts_with needle hay
  || match hay with
     | [] => false
     | _ :: hay' => contains needle hay'
     end.

(** Truthiness of a [str]: [not s] holds for the empty string only. *)
Definition nonempty (s : pystr) : bool :=
  match s with [] => false | _ :: _ => true end.

(** [x or None] for a [str] [x]. *)
Definition or_None (s : pystr) : option pystr :=
  if nonempty s then Some s else None.

(* ===================================================================== *)
(** ** Regular expressions *)
(* ===================================================================== *)

(** The fragment of [re] syntax the script uses.  A repetition is always of
    a one-character class, so the matcher is structurally recursive. *)
Inductive regex :=
| Chr (p : N -> bool)               (* a literal, [\s], [\d] or a [[...]] class *)
| Seq (r1 r2 : regex)               (* r1 r2 *)
| Alt (r1 r2 : regex)               (* r1|r2, r1 tried first *)
| Opt (r : regex)                   (* r?, greedy *)
| Rep (p : N -> bool) (lo : nat)    (* p{lo,}, greedy; p+ is p{1,} *)
| Grp (r : regex).                  (* ( r ), the capture group 1 *)

(** A literal character and a literal word. *)
Definition lit (c : N) : regex := Chr (N.eqb c).

Fixpoint word (c : N) (cs : pystr) : regex :=
  match cs with
  | [] => lit c
  | c' :: cs' => Seq (lit c) (word c' cs')
  end.

Section Matcher.
Context {R : Type}.

(** What is left to match: it gets the rest of the text and group 1. *)
Definition kont := pystr -> option pystr -> option R.

(** Greedy [p{lo,}]: take one more character when possible, and come back
    to the shorter run only when everything after it fails. *)
Fixpoint rep (p : N -> bool) (lo : nat) (s : pystr) (g : option pystr)
    (k : kont) : option R :=
  let stop := match lo with O => k s g | S _ => None end in
  match s with
  | c :: s' =>
    if p c then
      match rep p (Nat.pred lo) s' g k with
      | Some x => Some x
      | None => stop
      end
    else stop
  | [] => stop
  end.

Fixpoint run (r : regex) (s : pystr) (g : option pystr) (k : kont)
    : option R :=
  match r with
  | Chr p =>
    match s with
    | c :: s' => if p c then k s' g else None
    | [] => None
    end
  | Seq r1 r2 => run r1 s g (fun s' g' => run r2 s' g' k)
  | Alt r1 r2 =>
    match run r1 s g k with
    | Some x => Some x
    | None => run r2 s g k
    end
  | Opt r1 =>
    match run r1 s g k with
    | Some x => Some x
    | None => k s g
    end
  | Rep p lo => rep p lo s g k
  | Grp r1 =>
    run r1 s g (fun s' _ => k s' (Some (take (length s - length s') s)))
  end.
End Matcher.

(** A match object: [m.group(0)] and [m.group(1)]. *)
Record match_obj := { group0 : pystr; group1 : option pystr }.

(** [re.match]: the pattern applied at the start of [s]. *)
Definition match_here (r : regex) (s : pystr) : option match_obj :=
  run r s None
      (fun s' g => Some {| group0 := take (length s - length s') s;
                           group1 := g |}).

(** [re.search]: the first start position, from the left, with a match. *)
Fixpoint re_search (r : regex) (s : pystr) : option match_obj :=
  match match_here r s with
  | Some m => Some m
  | None =>
    match s with
    | [] => None
    | _ :: s' => re_search r s'
    end
  end.

(** The language of a pattern: [matches r u g g'] when [r] can consume exactly
    [u], leaving group 1 at [g'] when it was [g] before. *)
Inductive matches : regex -> pystr -> option pystr -> option pystr -> Prop :=
| M_chr p c g : p c = true -> matches (Chr p) [c] g g
| M_seq r1 r2 u v g g' g'' :
    matches r1 u g g' -> matches r2 v g' g'' -> matches (Seq r1 r2) (u ++ v) g g''
| M_alt_l r1 r2 u g g' : matches r1 u g g' -> matches (Alt r1 r2) u g g'
| M_alt_r r1 r2 u g g' : matches r2 u g g' -> matches (Alt r1 r2) u g g'
| M_opt_some r u g g' : matches r u g g' -> matches (Opt r) u g g'
| M_opt_none r g : matches (Opt r) [] g g
| M_rep p lo u g :
    (lo <= length u)%nat -> Forall (fun c => p c = true) u ->
    matches (Rep p lo) u g g
| M_grp r u g g' : matches r u g g' -> matches (Grp r) u g (Some u).

(** [u] is a substring of [s] that [r] matches, [pre] being what stands
    before it. *)
Definition occurs (r : regex) (s pre u : pystr) : Prop :=
  exists post g, s = pre ++ u ++ post /\ matches r u None g.

(** No match of [r] in [s] starts before [pre] ends. *)
Definition leftmost (r : regex) (s pre : pystr) : Prop :=
  forall pre' u', occurs r s pre' u' -> (length pre <= length pre')%nat.

(** The text after a greedy run: it does not go on with a character of the
    class. *)
Definition run_ends (p : N -> bool) (post : pystr) : Prop :=
  match post with
  | [] => True
  | c :: _ => p c = false
  end.

(** *** The two patterns of [extract_listings] *)

Definition rupee : N := 8377.    (* U+20B9 ₹ *)
Definition bullet : N := 8226.   (* U+2022 • *)
Definition comma : N := 44.

Definition upper (c : N) : bool := (65 <=? c) && (c <=? 90).
Definition lower (c : N) : bool := (97 <=? c) && (c <=? 122).

(** [[A-Za-z .,-]] *)
Definition place_char (c : N) : bool :=
  upper c || lower c || (c =? 32) || (c =? 46) || (c =? 44) || (c =? 45).

Section Patterns.
(** [\d] in a [str] pattern: the decimal digits of the Unicode database
    the interpreter ships. *)
Variable isdecimal : N -> bool.

(** [[\d,]] *)
Definition amount_char (c : N) : bool := isdecimal c || (c =? comma).

(** r"₹\s?[\d,]+" *)
Definition price_re : regex :=
  Seq (lit rupee) (Seq (Opt (Chr isspace)) (Rep amount_char 1)).
End Patterns.

(** r"(?:in|at|•)\s+([A-Z][A-Za-z .,-]{2,})" *)
Definition location_re : regex :=
  Seq (Alt (word 105 [110]) (Alt (word 97 [116]) (lit bullet)))
      (Seq (Rep isspace 1)
           (Grp (Seq (Chr upper) (Rep place_char 2)))).

(** The decimal digits of the Basic Latin block: every version of the
    Unicode database agrees with this table below U+0080. *)
Definition ascii_digit (c : N) : bool := (48 <=? c) && (c <=? 57).

(* ===================================================================== *)
(** ** The markup tree *)
(* ===================================================================== *)

(** A parsed page.  [NText] is a string that [get_text] yields (a
    [NavigableString] or [CData]); comments and the like, which it skips and
    the script never looks at, are not nodes of the model. *)
#[warnings="-register-all"]
Inductive node :=
| NText (s : pystr)
| NTag (name : pystr) (attrs : gmap pystr pystr) (children : list node).

(** The [BeautifulSoup] object: the root tag, named "[document]", over the
    top-level nodes of the page. *)
Definition soup_root (top : list node) : node :=
  NTag (txt "[document]") ∅ top.

(** A [Tag] object: the element and its ancestors, the parent first and the
    [BeautifulSoup] object last. *)
Record tag := { tag_node : node; tag_up : list node }.

(** [t.parent] *)
Definition tag_parent (t : tag) : option tag :=
  match tag_up t with
  | [] => None
  | p :: up => Some {| tag_node := p; tag_up := up |}
  end.

(** [t.get(key)] *)
Definition tag_get (t : tag) (key : pystr) : option pystr :=
  match tag_node t with
  | NText _ => None
  | NTag _ attrs _ => attrs !! key
  end.

(** The strings below a node, in document order. *)
Fixpoint strings (n : node) : list pystr :=
  match n with
  | NText s => [s]
  | NTag _ _ children => flat_map strings children
  end.

(** [t.get_text(sep, strip=True)]: every string stripped, the empty ones
    dropped, the rest joined by [sep]. *)
Definition get_text_strip (sep : pystr) (n : node) : pystr :=
  join sep (List.filter nonempty (map strip (strings n))).

(** a[href*="/item/"], a[data-aut-id="itemTitle"] *)
Definition is_card (n : node) : bool :=
  match n with
  | NText _ => false
  | NTag nm attrs _ =>
    bool_decide (nm = txt "a")
    && (match attrs !! txt "href" with
        | Some h => contains (txt "/item/") h
        | None => false
        end
        || bool_decide (attrs !! txt "data-aut-id" = Some (txt "itemTitle")))
  end.

(** The descendants of [n] that satisfy [sel], in document order, [up]
    being [n]'s own ancestors. *)
Fixpoint select_under (sel : node -> bool) (up : list node) (n : node)
    : list tag :=
  match n with
  | NText _ => []
  | NTag _ _ children =>
    flat_map (fun c =>
                (if sel c then [{| tag_node := c; tag_up := n :: up |}] else [])
                ++ select_under sel (n :: up) c)
             children
  end.

(** [soup.select(...)] for a selector list: each matching element once, in
    document order. *)
Definition soup_select (sel : node -> bool) (soup : node) : list tag :=
  select_under sel [] soup.

(* ===================================================================== *)
(** ** What the script takes from outside *)
(* ===================================================================== *)

(** One [session.get(url, headers=..., timeout=...)]. *)
Record request := {
  req_url : pystr;
  req_headers : list (pystr * pystr);
  req_timeout : Z
}.

(** Its outcome: a response, or an exception raised by [requests]. *)
Inductive http_outcome :=
| Response (status_code : Z) (text : pystr)
| Raised (message : pystr).

Class Platform := {
  (** the decimal digits of the Unicode database ([\d]) *)
  isdecimal : N -> bool;
  (** [urllib.parse.urljoin(base, url)] *)
  urljoin : pystr -> pystr -> pystr;
  (** [BeautifulSoup(html, "html.parser")]: the top-level nodes of the page *)
  html_parser : pystr -> list node;
  (** what the network answers to a request *)
  session_get : request -> http_outcome
}.

(* ===================================================================== *)
(** ** Effects *)
(* ===================================================================== *)

(** A written CSV file: its rows of cells, the header row first. *)
Abbreviation csv_rows := (list (list pystr)).

Record world := {
  stdout : list pystr;            (* lines printed *)
  stderr : list pystr;            (* lines printed to sys.stderr *)
  files : gmap pystr csv_rows;    (* the file system, by path *)
  slept : list Q;                 (* the calls of time.sleep *)
  sent : list request             (* the requests issued *)
}.

Definition M (A : Type) : Type := world -> A * world.

Definition ret {A} (a : A) : M A := fun w => (a, w).

Definition bind {A B} (m : M A) (f : A -> M B) : M B :=
  fun w => let (a, w') := m w in f a w'.

Notation "'let*' x := m 'in' k" := (bind m (fun x => k))
  (at level 10, x name, m at level 100, k at level 200).
Notation "m >> k" := (bind m (fun _ => k))
  (at level 90, right associativity).

(** [print(line)] *)
Definition print (line : pystr) : M unit := fun w =>
  (tt, {| stdout := stdout w ++ [line]; stderr := stderr w; files := files w;
          slept := slept w; sent := sent w |}).

(** [print(line, file=sys.stderr)] *)
Definition eprint (line : pystr) : M unit := fun w =>
  (tt, {| stdout := stdout w; stderr := stderr w ++ [line]; files := files w;
          slept := slept w; sent := sent w |}).

(** [time.sleep(d)] *)
Definition sleep (d : Q) : M unit := fun w =>
  (tt, {| stdout := stdout w; stderr := stderr w; files := files w;
          slept := slept w ++ [d]; sent := sent w |}).

(** [open(path, "w")], the writes and the close: the file is created or
    replaced. *)
Definition write_file (path : pystr) (rows : csv_rows) : M unit := fun w =>
  (tt, {| stdout := stdout w; stderr := stderr w;
          files := <[path := rows]> (files w);
          slept := slept w; sent := sent w |}).

(* ===================================================================== *)
(** ** The script *)
(* ===================================================================== *)

Definition BASE_URL : pystr := txt "https://www.olx.in/items/q-car-cover".
Definition OUTPUT_CSV : pystr := txt "olx_car_covers.csv".
Definition SITE : pystr := txt "https://www.olx.in".

Definition HEADERS : list (pystr * pystr) :=
  [ (txt "User-Agent",
     txt "Mozilla/5.0 (Windows NT 10.0; Win64; x64) AppleWebKit/537.36 (KHTML, like Gecko) Chrome/120.0 Safari/537.36");
    (txt "Accept-Language", txt "en-IN,en;q=0.9") ].

(** One result of [extract_listings]: a dict with these five keys. *)
Record listing := {
  title : option pystr;
  url : pystr;
  price_guess : option pystr;
  location_guess : option pystr;
  snippet : option pystr
}.

Section Script.
Context {P : Platform}.

(** [session.get] with the script's headers and timeout. *)
Definition get (u : pystr) : M http_outcome := fun w =>
  let rq := {| req_url := u; req_headers := HEADERS; req_timeout := 20 |} in
  (session_get rq,
   {| stdout := stdout w; stderr := stderr w; files := files w;
      slept := slept w; sent := sent w ++ [rq] |}).

Definition fetch_page (u : pystr) : M (option pystr) :=
  let* r := get u in
  match r with
  | Response status_code text =>
    if (status_code =? 200)%Z then ret (Some text)
    else
      eprint (txt "[warn] HTTP " ++ str_of_int status_code ++ txt " for " ++ u) >>
      ret None
  | Raised e =>
    eprint (txt "[error] " ++ e) >>
    ret None
  end.

(** The walk up from the anchor: [parent] holds a tag or [None], and the
    loop stops at the first tag without a parent. *)
Fixpoint bubble_up (n : nat) (parent : option tag) : option tag :=
  match n with
  | O => parent
  | S n' =>
    match parent with
    | Some t =>
      match tag_parent t with
      | Some q => bubble_up n' (Some q)
      | None => parent
      end
    | None => parent
    end
  end.

(** [m = re.search(r"₹\s?[\d,]+", text)], then [m.group(0)] if [m]. *)
Definition price_in (text : pystr) : option pystr :=
  match re_search (price_re isdecimal) text with
  | Some m => Some (group0 m)
  | None => None
  end.

(** [m2 = re.search(r"(?:in|at|•)\s+(...)", text)], then
    [m2.group(1).strip()] if [m2]. *)
Definition location_in (text : pystr) : option pystr :=
  match re_search location_re text with
  | Some m2 =>
    match group1 m2 with
    | Some g => Some (strip g)
    | None => None
    end
  | None => None
  end.

(** [price], [location] and [snippet] as lines 53 to 77 leave them:
    [None] each, unless [parent] is truthy (a [Tag] always is). *)
Definition context_fields (parent : option tag)
    : option pystr * option pystr * option pystr :=
  match parent with
  | Some t =>
    let text := get_text_strip (txt " ") (tag_node t) in
    let snippet := if nonempty text then Some (take 300 text) else None in
    (price_in text, location_in text, snippet)
  | None => (None, None, None)
  end.

(** The dict appended for the anchor [a] once its URL is known. *)
Definition make_listing (a : tag) (u : pystr) : listing :=
  let title := or_None (get_text_strip (txt " ") (tag_node a)) in
  let '(price, location, snippet) := context_fields (bubble_up 3 (Some a)) in
  {| title := title; url := u; price_guess := price;
     location_guess := location; snippet := snippet |}.

(** One turn of the loop over [cards], on [results] and [seen]. *)
Definition extract_step (st : list listing * gset pystr) (a : tag)
    : list listing * gset pystr :=
  let '(results, seen) := st in
  match tag_get a (txt "href") with
  | None => st
  | Some href =>
    if nonempty href then
      let u := urljoin SITE href in
      if bool_decide (u ∈ seen) then st
      else (results ++ [make_listing a u], seen ∪ {[u]})
    else st
  end.

Definition extract_listings (html : pystr) : list listing :=
  let soup := soup_root (html_parser html) in
  let cards := soup_select is_card soup in
  fst (fold_left extract_step cards ([], ∅)).

Definition next_page_url (current_page : Z) : pystr :=
  if (current_page <=? 1)%Z then BASE_URL
  else BASE_URL ++ txt "?page=" ++ str_of_int current_page.

(** [range(a, b)] *)
Definition py_range (a b : Z) : list Z :=
  map (fun i => (a + Z.of_nat i)%Z) (seq 0 (Z.to_nat (b - a))).

(** [not html] for [html : Optional[str]] *)
Definition no_html (html : option pystr) : bool :=
  match html with
  | Some s => negb (nonempty s)
  | None => true
  end.

Definition body_of (html : option pystr) : pystr :=
  match html with Some s => s | None => [] end.

(** The page loop of [scrape], over the page numbers still to visit. *)
Fixpoint scrape_loop (pages : list Z) (delay_sec : Q)
    (all_rows : list listing) (seen_urls : gset pystr) : M (list listing) :=
  match pages with
  | [] => ret all_rows
  | page_num :: rest =>
    let u := next_page_url page_num in
    print (txt "[info] Fetching page " ++ str_of_int page_num ++ txt ": " ++ u) >>
    let* html := fetch_page u in
    if no_html html then
      print (txt "[warn] No HTML fetched, stopping.") >>
      ret all_rows
    else
      let rows := extract_listings (body_of html) in
      let new_rows :=
        List.filter (fun r => negb (bool_decide (url r ∈ seen_urls))) rows in
      match new_rows with
      | [] =>
        print (txt "[info] No new rows found; stopping.") >>
        ret all_rows
      | _ :: _ =>
        let all_rows' := all_rows ++ new_rows in
        let seen_urls' := seen_urls ∪ list_to_set (map url new_rows) in
        sleep delay_sec >>
        scrape_loop rest delay_sec all_rows' seen_urls'
      end
  end.

Definition scrape (max_pages : Z) (delay_sec : Q) : M (list listing) :=
  scrape_loop (py_range 1 (max_pages + 1)) delay_sec [] ∅.

(** A cell of the written file: [None] is written as the empty string. *)
Definition cell (v : option pystr) : pystr :=
  match v with Some s => s | None => [] end.

Definition fieldnames : list pystr :=
  [txt "title"; txt "url"; txt "price_guess"; txt "location_guess"; txt "snippet"].

Definition csv_row (r : listing) : list pystr :=
  [cell (title r); url r; cell (price_guess r); cell (location_guess r);
   cell (snippet r)].

Definition save_csv (rows : list listing) (path : pystr) : M unit :=
  match rows with
  | [] => print (txt "[info] No rows to save.")
  | _ :: _ =>
    write_file path (fieldnames :: map csv_row rows) >>
    print (txt "[info] Saved " ++ str_of_int (Z.of_nat (length rows))
           ++ txt " rows to " ++ path)
  end.

(** The script run with [max_pages] already read from the command line. *)
Definition main (max_pages : Z) : M unit :=
  let* rows := scrape max_pages (9 # 5) in
  save_csv rows OUTPUT_CSV >>
  print (txt "[done]").
End Script.

(* ===================================================================== *)
(** ** The languages of the two patterns *)
(* ===================================================================== *)

(** The strings r"₹\s?[\d,]+" matches: the sign, at most one whitespace
    character, and one or more characters that are digits or commas. *)
Definition price_shape (d : N -> bool) (u : pystr) : Prop :=
  exists ws ds,
    u = rupee :: ws ++ ds
    /\ (ws = [] \/ exists w, ws = [w] /\ isspace w = true)
    /\ ds <> []
    /\ Forall (fun c => amount_char d c = true) ds.

(** The strings the location pattern matches, with what its group captures:
    a connector, whitespace, then a capital letter and two or more
    characters of [[A-Za-z .,-]]. *)
Definition connector (u : pystr) : Prop :=
  u = [105; 110] \/ u = [97; 116] \/ u = [bullet].

Definition location_shape (u grp : pystr) : Prop :=
  exists conn ws c tail,
    u = conn ++ ws ++ grp /\ grp = c :: tail
    /\ connector conn
    /\ ws <> [] /\ Forall (fun x => isspace x = true) ws
    /\ upper c = true
    /\ Forall (fun x => place_char x = true) tail /\ (2 <= length tail)%nat.

(* ===================================================================== *)
(** ** Notions the statements use *)
(* ===================================================================== *)

Section Notions.
Context {P : Platform}.

(** The anchors [extract_listings] loops over. *)
Definition cards (html : pystr) : list tag :=
  soup_select is_card (soup_root (html_parser html)).

(** The URL of an anchor that passes the [href] test of the loop. *)
Definition card_url (a : tag) : option pystr :=
  match tag_get a (txt "href") with
  | Some href => if nonempty href then Some (urljoin SITE href) else None
  | None => None
  end.

(** The first anchor, in document order, whose URL is [u]. *)
Definition first_card (cs : list tag) (u : pystr) : option tag :=
  List.find (fun a => bool_decide (card_url a = Some u)) cs.

(** Whether the loop gets past the [href] test for an anchor. *)
Definition has_href (a : tag) : bool :=
  match card_url a with Some _ => true | None => false end.

(** What the loop of [extract_listings] keeps true, [done] being the
    anchors already visited. *)
Definition extract_inv (done : list tag) (st : list listing * gset pystr)
    : Prop :=
  (forall u, u ∈ st.2 <-> In u (map url st.1))
  /\ NoDup (map url st.1)
  /\ (forall r, In r st.1 ->
        exists a, first_card done (url r) = Some a
                  /\ r = make_listing a (url r))
  /\ (forall a u, In a done -> card_url a = Some u -> u ∈ st.2)
  /\ (length st.1 <= length (List.filter has_href done))%nat.

(** The tag [k] parent links above [t]. *)
Fixpoint links_up (k : nat) (t : tag) : option tag :=
  match k with
  | O => Some t
  | S k' =>
    match tag_parent t with
    | Some q => links_up k' q
    | None => None
    end
  end.

(** The context text of an anchor: the text of the tag the walk ends on. *)
Definition context_text (a : tag) : option pystr :=
  match bubble_up 3 (Some a) with
  | Some t => Some (get_text_strip (txt " ") (tag_node t))
  | None => None
  end.

(** The request [fetch_page] sends for a URL. *)
Definition request_for (u : pystr) : request :=
  {| req_url := u; req_headers := HEADERS; req_timeout := 20 |}.

(** What [fetch_page] prints to [sys.stderr] for a URL. *)
Definition fetch_log (u : pystr) : list pystr :=
  match session_get (request_for u) with
  | Response status_code text =>
    if (status_code =? 200)%Z then []
    else [txt "[warn] HTTP " ++ str_of_int status_code ++ txt " for " ++ u]
  | Raised e => [txt "[error] " ++ e]
  end.

(** The world after the loop stops on a page it could not use. *)
Definition stopped_world (page_num : Z) (w : world) : world :=
  let u := next_page_url page_num in
  {| stdout := stdout w
               ++ [txt "[info] Fetching page " ++ str_of_int page_num
                   ++ txt ": " ++ u;
                   txt "[warn] No HTML fetched, stopping."];
     stderr := stderr w ++ fetch_log u;
     files := files w; slept := slept w;
     sent := sent w ++ [request_for u] |}.

(** The world after the loop stops on a page without new rows. *)
Definition no_new_world (page_num : Z) (w : world) : world :=
  let u := next_page_url page_num in
  {| stdout := stdout w
               ++ [txt "[info] Fetching page " ++ str_of_int page_num
                   ++ txt ": " ++ u;
                   txt "[info] No new rows found; stopping."];
     stderr := stderr w ++ fetch_log u;
     files := files w; slept := slept w;
     sent := sent w ++ [request_for u] |}.

(** The world after a page that added rows. *)
Definition next_world (page_num : Z) (d : Q) (w : world) : world :=
  let u := next_page_url page_num in
  {| stdout := stdout w
               ++ [txt "[info] Fetching page " ++ str_of_int page_num
                   ++ txt ": " ++ u];
     stderr := stderr w ++ fetch_log u;
     files := files w; slept := slept w ++ [d];
     sent := sent w ++ [request_for u] |}.

(** What [fetch_page] returns for a URL (its value does not depend on the
    console). *)
Definition fetched (u : pystr) : option pystr :=
  match session_get (request_for u) with
  | Response status_code text =>
    if (status_code =? 200)%Z then Some text else None
  | Raised _ => None
  end.

(** The records [extract_listings] returns for the body fetched for page
    [p] (for the empty body, when the fetch fails). *)
Definition page_rows (p : nat) : list listing :=
  extract_listings (body_of (fetched (next_page_url (Z.of_nat p)))).

(** The rows of a page whose URL is not among those of [acc]. *)
Definition new_rows_of (acc : list listing) (rows : list listing)
    : list listing :=
  List.filter (fun r => negb (bool_decide (url r ∈ map url acc))) rows.

(** The records gathered from pages [1..k], each page adding the records
    whose URL no earlier page has given. *)
Fixpoint accumulated (k : nat) : list listing :=
  match k with
  | O => []
  | S k' => accumulated k' ++ new_rows_of (accumulated k') (page_rows k)
  end.

(** Page [p] is fetched with a non-empty body and adds a record. *)
Definition contributes (p : nat) : Prop :=
  no_html (fetched (next_page_url (Z.of_nat p))) = false
  /\ new_rows_of (accumulated (Nat.pred p)) (page_rows p) <> [].

(** The run completes exactly [j] of its [n] pages: each of them
    contributes, and the page after them, if within the budget, does not. *)
Definition completes (n j : nat) : Prop :=
  (j <= n)%nat
  /\ (forall q, (1 <= q <= j)%nat -> contributes q)
  /\ (j = n \/ ~ contributes (S j)).

(** The request for page [p]. *)
Definition page_request (p : nat) : request :=
  request_for (next_page_url (Z.of_nat p)).

(** Every record extracted from pages [1..k], in page order. *)
Definition produced (k : nat) : list listing :=
  flat_map page_rows (seq 1 k).
End Notions.

(** A URL with a scheme: a letter, then letters, digits, [+], [-] or [.],
    up to a colon. *)
Definition scheme_char (c : N) : bool :=
  upper c || lower c || ((48 <=? c) && (c <=? 57))
  || (c =? 43) || (c =? 45) || (c =? 46).

Fixpoint scheme_tail (s : pystr) : bool :=
  match s with
  | [] => false
  | c :: r => if c =? 58 then true else scheme_char c && scheme_tail r
  end.

Definition is_absolute (u : pystr) : bool :=
  match u with
  | c :: r => (upper c || lower c) && scheme_tail r
  | [] => false
  end.

(* ===================================================================== *)
(** ** The two guesses as the specification words them *)
(* ===================================================================== *)

(** The specification's wording of the amount: "digit groups with optional
    comma separators", that is one or more groups of digits with a single
    comma between two groups.  [after_digit] tells whether the character
    just read was a digit. *)
Fixpoint digit_groups (d : N -> bool) (after_digit : bool) (s : pystr) : bool :=
  match s with
  | [] => after_digit
  | c :: r =>
    if d c then digit_groups d true r
    else if c =? comma then after_digit && digit_groups d false r
    else false
  end.

(** The specification's wording of a price: the sign, an optional
    whitespace character, then digit groups. *)
Definition claimed_price_format (d : N -> bool) (s : pystr) : bool :=
  match s with
  | c :: r =>
    (c =? rupee)
    && (digit_groups d false r
        || match r with
           | x :: r' => isspace x && digit_groups d false r'
           | [] => false
           end)
  | [] => false
  end.

(** A character of a word. *)
Definition word_char (c : N) : bool :=
  upper c || lower c || ((48 <=? c) && (c <=? 57)) || (c =? 95).

(** The specification's wording of the location: the connector is "the word
    in" or "the word at", so it does not continue a word ([prev] is the
    character before the position tried); a bullet may stand anywhere. *)
Fixpoint claimed_search (prev : option N) (s : pystr) : option match_obj :=
  let at_word_start :=
    match prev with
    | Some c => negb (word_char c)
    | None => true
    end in
  match (if at_word_start || starts_with [bullet] s
         then match_here location_re s else None) with
  | Some m => Some m
  | None =>
    match s with
    | [] => None
    | c :: s' => claimed_search (Some c) s'
    end
  end.

Definition claimed_location (text : pystr) : option pystr :=
  match claimed_search None text with
  | Some m =>
    match group1 m with
    | Some g => Some (strip g)
    | None => None
    end
  | None => None
  end.

(* ===================================================================== *)
(** ** [urllib.parse.urljoin] of the standard library *)
(* ===================================================================== *)

(** The operations of [str] that [urllib.parse] uses, on one-character
    arguments. *)

(** [s.find(c)]: the first index of [c], [None] for -1. *)
Fixpoint find_char (c : N) (s : pystr) : option nat :=
  match s with
  | [] => None
  | x :: r => if x =? c then Some O else option_map S (find_char c r)
  end.

(** [s.find(c, start)] for [0 <= start]. *)
Definition find_from (c : N) (start : nat) (s : pystr) : option nat :=
  option_map (Nat.add start) (find_char c (drop start s)).

(** [s.rfind(c)] *)
Definition rfind_char (c : N) (s : pystr) : option nat :=
  option_map (fun i => (length s - 1 - i)%nat) (find_char c (rev s)).

(** [c in s] *)
Definition has_char (c : N) (s : pystr) : bool :=
  match find_char c s with Some _ => true | None => false end.

(** [s.split(c)] *)
Fixpoint split_char (c : N) (s : pystr) : list pystr :=
  match s with
  | [] => [[]]
  | x :: r =>
    if x =? c then [] :: split_char c r
    else match split_char c r with
         | p :: ps => (x :: p) :: ps
         | [] => [[x]]
         end
  end.

(** [s.split(c, 1)] for an [s] that holds [c]: what stands before the first
    [c] and what stands after it. *)
Definition split_once (c : N) (s : pystr) : pystr * pystr :=
  match find_char c s with
  | Some i => (take i s, drop (S i) s)
  | None => (s, [])
  end.

(** [s.replace(c, "")] *)
Definition remove_char (c : N) (s : pystr) : pystr :=
  List.filter (fun x => negb (x =? c)) s.

(** [s.lstrip(chars)] and [s.strip(chars)], [chars] given as a test. *)
Fixpoint lstrip_chars (p : N -> bool) (s : pystr) : pystr :=
  match s with
  | c :: r => if p c then lstrip_chars p r else s
  | [] => []
  end.

Definition strip_chars (p : N -> bool) (s : pystr) : pystr :=
  rev (lstrip_chars p (rev (lstrip_chars p s))).

(** [s.lower()] for an [s] of ASCII characters. *)
Definition ascii_lower (s : pystr) : pystr :=
  map (fun c => if upper c then c + 32 else c) s.

(** [urljoin] as [Lib/urllib/parse.py] of CPython 3.11 defines it, for [str]
    arguments and [allow_fragments=True], function by function.  [urlsplit]
    raises [ValueError] for some hosts (an unmatched bracket, a bracketed
    host that is no IP literal, a character that normalises to a delimiter);
    these checks are left out, so that the model gives the value of a call
    that returns. *)
Module urllib_parse.

Definition uses_relative : list pystr :=
  map txt ["" ; "ftp"; "http"; "gopher"; "nntp"; "imap"; "wais"; "file";
           "https"; "shttp"; "mms"; "prospero"; "rtsp"; "rtspu"; "sftp";
           "svn"; "svn+ssh"; "ws"; "wss"]%string.

Definition uses_netloc : list pystr :=
  map txt ["" ; "ftp"; "http"; "gopher"; "nntp"; "telnet"; "imap"; "wais";
           "file"; "mms"; "https"; "shttp"; "snews"; "prospero"; "rtsp";
           "rtspu"; "rsync"; "svn"; "svn+ssh"; "sftp"; "nfs"; "git";
           "git+ssh"; "ws"; "wss"]%string.

Definition uses_params : list pystr :=
  map txt ["" ; "ftp"; "hdl"; "prospero"; "http"; "imap"; "https"; "shttp";
           "rtsp"; "rtspu"; "sip"; "sips"; "mms"; "sftp"; "tel"]%string.

Definition scheme_chars : pystr :=
  txt "abcdefghijklmnopqrstuvwxyzABCDEFGHIJKLMNOPQRSTUVWXYZ0123456789+-.".

(** The characters U+0000 to U+0020. *)
Definition _WHATWG_C0_CONTROL_OR_SPACE (c : N) : bool := c <=? 32.

(** Tab, carriage return and line feed. *)
Definition _UNSAFE_URL_BYTES_TO_REMOVE : list N := [9; 13; 10].

(** [x in l] for a list of [str]. *)
Definition among (x : pystr) (l : list pystr) : bool :=
  existsb (fun y => bool_decide (x = y)) l.

Record SplitResult := {
  s_scheme : pystr; s_netloc : pystr; s_path : pystr;
  s_query : pystr; s_fragment : pystr
}.

Record ParseResult := {
  scheme : pystr; netloc : pystr; path : pystr; params : pystr;
  query : pystr; fragment : pystr
}.

Definition _splitnetloc (url : pystr) (start : nat) : pystr * pystr :=
  let delim :=
    fold_left (fun delim c =>
                 match find_from c start url with
                 | Some wdelim => Nat.min delim wdelim
                 | None => delim
                 end)
              (txt "/?#") (length url) in
  (drop start (take delim url), drop delim url).

(** The scheme of [url] and what follows its colon, when [url] begins with a
    letter and holds only [scheme_chars] up to its first colon; the default
    [scheme] and [url] otherwise. *)
Definition split_scheme (url scheme : pystr) : pystr * pystr :=
  match find_char 58 url, url with
  | Some (S i), c :: _ =>
    if (upper c || lower c)
       && forallb (fun c => has_char c scheme_chars) (take (S i) url)
    then (ascii_lower (take (S i) url), drop (S (S i)) url)
    else (scheme, url)
  | _, _ => (scheme, url)
  end.

Definition urlsplit (url scheme : pystr) : SplitResult :=
  let url := lstrip_chars _WHATWG_C0_CONTROL_OR_SPACE url in
  let scheme := strip_chars _WHATWG_C0_CONTROL_OR_SPACE scheme in
  let url := fold_left (fun u b => remove_char b u) _UNSAFE_URL_BYTES_TO_REMOVE url in
  let scheme :=
    fold_left (fun s b => remove_char b s) _UNSAFE_URL_BYTES_TO_REMOVE scheme in
  let '(scheme, url) := split_scheme url scheme in
  let '(netloc, url) :=
    if starts_with (txt "//") url then _splitnetloc url 2 else ([], url) in
  let '(url, fragment) :=
    if has_char 35 url then split_once 35 url else (url, []) in
  let '(url, query) :=
    if has_char 63 url then split_once 63 url else (url, []) in
  {| s_scheme := scheme; s_netloc := netloc; s_path := url;
     s_query := query; s_fragment := fragment |}.

Definition _splitparams (url : pystr) : pystr * pystr :=
  if has_char 47 url then
    match rfind_char 47 url with
    | Some j =>
      match find_from 59 j url with
      | Some i => (take i url, drop (S i) url)
      | None => (url, [])
      end
    | None => (url, [])
    end
  else
    match find_char 59 url with
    | Some i => (take i url, drop (S i) url)
    | None => (removelast url, url)
    end.

Definition urlparse (url scheme : pystr) : ParseResult :=
  let r := urlsplit url scheme in
  let '(url, params) :=
    if among (s_scheme r) uses_params && has_char 59 (s_path r)
    then _splitparams (s_path r)
    else (s_path r, []) in
  {| scheme := s_scheme r; netloc := s_netloc r; path := url;
     params := params; query := s_query r; fragment := s_fragment r |}.

Definition urlunsplit (r : SplitResult) : pystr :=
  let url := s_path r in
  let url :=
    if nonempty (s_netloc r)
       || (nonempty (s_scheme r) && among (s_scheme r) uses_netloc
           && negb (starts_with (txt "//") url))
    then
      let url :=
        if nonempty url && negb (starts_with (txt "/") url)
        then txt "/" ++ url else url in
      txt "//" ++ s_netloc r ++ url
    else url in
  let url :=
    if nonempty (s_scheme r) then s_scheme r ++ txt ":" ++ url else url in
  let url :=
    if nonempty (s_query r) then url ++ txt "?" ++ s_query r else url in
  if nonempty (s_fragment r) then url ++ txt "#" ++ s_fragment r else url.

Definition urlunparse (r : ParseResult) : pystr :=
  let url :=
    if nonempty (params r) then path r ++ txt ";" ++ params r else path r in
  urlunsplit {| s_scheme := scheme r; s_netloc := netloc r; s_path := url;
                s_query := query r; s_fragment := fragment r |}.

(** [segments[1:-1] = filter(None, segments[1:-1])]: the empty segments go,
    but for the first and the last. *)
Definition squeeze (segments : list pystr) : list pystr :=
  let n := length segments in
  take 1 segments
  ++ List.filter nonempty (drop 1 (take (n - 1) segments))
  ++ drop (Nat.max 1 (n - 1)) segments.

(** One turn of the loop over [segments], on [resolved_path]. *)
Definition resolve_step (resolved_path : list pystr) (seg : pystr)
    : list pystr :=
  if bool_decide (seg = txt "..") then removelast resolved_path
  else if bool_decide (seg = txt ".") then resolved_path
  else resolved_path ++ [seg].

Definition resolve_path (bpath path : pystr) : pystr :=
  let base_parts := split_char 47 bpath in
  let base_parts :=
    if nonempty (List.last base_parts []) then removelast base_parts
    else base_parts in
  let segments :=
    if starts_with (txt "/") path then split_char 47 path
    else squeeze (base_parts ++ split_char 47 path) in
  let resolved_path := fold_left resolve_step segments [] in
  let resolved_path :=
    if among (List.last segments []) [txt "."; txt ".."]
    then resolved_path ++ [[]] else resolved_path in
  let joined := join (txt "/") resolved_path in
  if nonempty joined then joined else txt "/".

Definition urljoin (base url : pystr) : pystr :=
  if negb (nonempty base) then url
  else if negb (nonempty url) then base
  else
    let b := urlparse base [] in
    let u := urlparse url (scheme b) in
    if negb (bool_decide (scheme u = scheme b))
       || negb (among (scheme u) uses_relative)
    then url
    else if among (scheme u) uses_netloc && nonempty (netloc u)
    then urlunparse u
    else
      let netloc' :=
        if among (scheme u) uses_netloc then netloc b else netloc u in
      if negb (nonempty (path u)) && negb (nonempty (params u)) then
        urlunparse
          {| scheme := scheme u; netloc := netloc'; path := path b;
             params := params b;
             query := if nonempty (query u) then query u else query b;
             fragment := fragment u |}
      else
        urlunparse
          {| scheme := scheme u; netloc := netloc';
             path := resolve_path (path b) (path u);
             params := params u; query := query u;
             fragment := fragment u |}.
End urllib_parse.

(** The scheme [urljoin] reads in a reference it resolves against the site:
    the reference's own, or the site's ([https]) when it carries none. *)
Definition reference_scheme (href : pystr) : pystr :=
  urllib_parse.scheme (urllib_parse.urlparse href (txt "https")).

(* ===================================================================== *)
(** ** A small site to run the script on *)
(* ===================================================================== *)

(** Two result pages, as the parser returns them.  In each card the anchor
    sits in a heading inside a block, so that the third tag above it is the
    card. *)
Definition anchor (href : string) (label : string) : node :=
  NTag (txt "a") {[ txt "href" := txt href ]} [NText (txt label)].

Definition card (href label rest : string) : node :=
  NTag (txt "li") ∅
       [NTag (txt "div") ∅ [NTag (txt "h2") ∅ [anchor href label]];
        NTag (txt "span") ∅ [NText (txt rest)]].

(** An anchor the second selector picks, without [href]. *)
Definition promo : node :=
  NTag (txt "li") ∅
       [NTag (txt "a") {[ txt "data-aut-id" := txt "itemTitle" ]}
             [NText (txt "Sponsored")]].

Definition page_one_html : pystr :=
  txt "<ul><li><div><h2><a href='/item/1'>Car Seat Covers</a></h2></div><span>₹ 500</span></li><li><div><h2><a href='/item/2'>Car body cover</a></h2></div><span>₹ 1,200, negotiable</span></li></ul>".

Definition page_one : list node :=
  [NTag (txt "ul") ∅
        [card "/item/1" "Car Seat Covers" "₹ 500";
         card "/item/2" "Car body cover" "₹ 1,200, negotiable"]].

Definition page_two_html : pystr :=
  txt "<ul><li><div><h2><a href='/item/2'>Car body cover</a></h2></div><span>₹ 1,200, negotiable</span></li><li><div><h2><a href='/item/3'>Used car cover</a></h2></div><span>for sale in Mumbai ₹ 1,200</span></li><li><a data-aut-id='itemTitle'>Sponsored</a></li></ul>".

Definition page_two : list node :=
  [NTag (txt "ul") ∅
        [card "/item/2" "Car body cover" "₹ 1,200, negotiable";
         card "/item/3" "Used car cover" "for sale in Mumbai ₹ 1,200";
         promo]].

(** The parser on the two pages; any other text has no element. *)
Definition demo_parser (html : pystr) : list node :=
  if bool_decide (html = page_one_html) then page_one
  else if bool_decide (html = page_two_html) then page_two
  else [].

(** A resolver for the links of the two pages: a link with a scheme stands
    as it is, any other is a path on the site. *)
Definition demo_urljoin (base href : pystr) : pystr :=
  if is_absolute href then href
  else if starts_with (txt "/") href then base ++ href
  else base ++ txt "/" ++ href.

(** The site: two pages of results, then an empty body with status 200. *)
Definition demo_site (rq : request) : http_outcome :=
  if bool_decide (req_url rq = BASE_URL) then Response 200 page_one_html
  else if bool_decide (req_url rq = BASE_URL ++ txt "?page=2")
       then Response 200 page_two_html
  else if bool_decide (req_url rq = BASE_URL ++ txt "?page=3")
       then Response 200 []
  else Response 404 (txt "Not Found").

Definition demo : Platform :=
  {| isdecimal := ascii_digit; urljoin := demo_urljoin;
     html_parser := demo_parser; session_get := demo_site |}.

(** The same site when it answers 404 to everything. *)
Definition demo_down : Platform :=
  {| isdecimal := ascii_digit; urljoin := demo_urljoin;
     html_parser := demo_parser;
     session_get := fun _ => Response 404 (txt "Not Found") |}.

(** The first anchor of the first page, as [soup.select] returns it. *)
Definition first_anchor : tag :=
  {| tag_node := anchor "/item/1" "Car Seat Covers";
     tag_up :=
       [NTag (txt "h2") ∅ [anchor "/item/1" "Car Seat Covers"];
        NTag (txt "div") ∅ [NTag (txt "h2") ∅ [anchor "/item/1" "Car Seat Covers"]];
        card "/item/1" "Car Seat Covers" "₹ 500";
        NTag (txt "ul") ∅
             [card "/item/1" "Car Seat Covers" "₹ 500";
              card "/item/2" "Car body cover" "₹ 1,200, negotiable"];
        soup_root page_one] |}.

(** The anchor of the card for item 3, on the second page. *)
Definition third_anchor : tag :=
  {| tag_node := anchor "/item/3" "Used car cover";
     tag_up :=
       [NTag (txt "h2") ∅ [anchor "/item/3" "Used car cover"];
        NTag (txt "div") ∅ [NTag (txt "h2") ∅ [anchor "/item/3" "Used car cover"]];
        card "/item/3" "Used car cover" "for sale in Mumbai ₹ 1,200";
        NTag (txt "ul") ∅
             [card "/item/2" "Car body cover" "₹ 1,200, negotiable";
              card "/item/3" "Used car cover" "for sale in Mumbai ₹ 1,200";
              promo];
        soup_root page_two] |}.

(** Nothing printed, written, slept or sent yet. *)
Definition fresh : world :=
  {| stdout := []; stderr := []; files := ∅; slept := []; sent := [] |}.

(* ===================================================================== *)
(** ** Proof tools *)
(* ===================================================================== *)

(** Inversion of a hypothesis, keeping only what it yields. *)
Ltac invc H := inversion H; subst; clear H.

(** Inversion of every hypothesis that a pattern with a known head matches. *)
Ltac inv_matches :=
  match goal with
  | H : matches (Chr _) _ _ _ |- _ => invc H
  | H : matches (Seq _ _) _ _ _ |- _ => invc H
  | H : matches (Alt _ _) _ _ _ |- _ => invc H
  | H : matches (Opt _) _ _ _ |- _ => invc H
  | H : matches (Rep _ _) _ _ _ |- _ => invc H
  | H : matches (Grp _) _ _ _ |- _ => invc H
  end.

(* ===================================================================== *)
(** ** Two pages at the edges *)
(* ===================================================================== *)

(** A page with a link to another site whose [href] begins with a space, as
    the parser returns it (an attribute value is kept as written). *)
Definition links_html : pystr :=
  txt "<ul><li><div><h2><a href='/item/1'>Car Seat Covers</a></h2></div><span>₹ 500</span></li><li><div><h2><a href=' http://evil/item/1'>Wing mirror</a></h2></div><span>₹ 10</span></li><li><a data-aut-id='itemTitle'>Sponsored</a></li></ul>".

Definition links_page : list node :=
  [NTag (txt "ul") ∅
        [card "/item/1" "Car Seat Covers" "₹ 500";
         card " http://evil/item/1" "Wing mirror" "₹ 10";
         promo]].

(** A page that is one anchor and nothing else: above the anchor there is
    only the [BeautifulSoup] object. *)
Definition lone_html : pystr :=
  txt "<a href='/item/9'>Car cover in Pune ₹ 900</a>".

Definition lone_page : list node :=
  [anchor "/item/9" "Car cover in Pune ₹ 900"].



Definition edge_parser (html : pystr) : list node :=
  if bool_decide (html = links_html) then links_page
  else if bool_decide (html = lone_html) then lone_page
  else [].

(** A site that serves the page of links, with the standard library's
    [urljoin]. *)
Definition edge : Platform :=
  {| isdecimal := ascii_digit; urljoin := urllib_parse.urljoin;
     html_parser := edge_parser;
     session_get := fun _ => Response 200 links_html |}.

(* ===================================================================== *)
(** ** Notions for the further properties *)
(* ===================================================================== *)

(** A list of URLs with only the first occurrence of each kept, in order. *)
Fixpoint keep_first (l : list pystr) : list pystr :=
  match l with
  | [] => []
  | x :: l' =>
    x :: List.filter (fun y => negb (bool_decide (y = x))) (keep_first l')
  end.

Section MoreNotions.
Context {P : Platform}.

(** The URLs of the anchors of a page that pass the [href] test, in document
    order, repeats included. *)
Definition card_urls (html : pystr) : list pystr :=
  omap card_url (cards html).

(** The same for the body fetched for page [p]. *)
Definition page_card_urls (p : nat) : list pystr :=
  card_urls (body_of (fetched (next_page_url (Z.of_nat p)))).
End MoreNotions.

(** A site whose every page is an empty document with status 200. *)
Definition demo_bare : Platform :=
  {| isdecimal := ascii_digit; urljoin := demo_urljoin;
     html_parser := demo_parser;
     session_get := fun _ => Response 200 (txt "<html></html>") |}.

(** No optional field of a record holds an empty string. *)
Definition no_empty_field (r : listing) : Prop :=
  title r <> Some [] /\ price_guess r <> Some []
  /\ location_guess r <> Some [] /\ snippet r <> Some [].

(** A page with one card that shows neither a price nor a place, and its
    anchor. *)
Definition plain_page : list node :=
  [NTag (txt "li") ∅ [anchor "/item/9" "plain cover"]].

Definition plain_anchor : tag :=
  {| tag_node := anchor "/item/9" "plain cover";
     tag_up := [NTag (txt "li") ∅ [anchor "/item/9" "plain cover"];
                soup_root plain_page] |}.

(* ===================================================================== *)
(** ** The matcher and the language of a pattern *)
(* ===================================================================== *)

Section MatcherFacts.
Context {R : Type}.
Implicit Types (k : @kont R) (s u : pystr) (g : option pystr).

Lemma rep_sound p lo s g k x :
  rep p lo s g k = Some x ->
  exists u s', s = u ++ s' /\ (lo <= length u)%nat
               /\ Forall (fun c => p c = true) u /\ k s' g = Some x.
Proof.
  revert lo. induction s as [|c s IH]; intros lo H.
  - destruct lo; simpl in H; [|discriminate].
    exists [], []. repeat split; auto.
  - simpl in H. destruct (p c) eqn:Hc.
    + destruct (rep p (Nat.pred lo) s g k) eqn:Hr.
      * inversion H; subst. apply IH in Hr as (u & s' & -> & Hlo & Hu & Hk).
        exists (c :: u), s'. repeat split; simpl; auto; lia.
      * destruct lo; [|discriminate].
        exists [], (c :: s). repeat split; auto.
    + destruct lo; [|discriminate].
      exists [], (c :: s). repeat split; auto.
Qed.

Lemma rep_complete p lo u s' g k x :
  Forall (fun c => p c = true) u -> (lo <= length u)%nat ->
  k s' g = Some x -> exists y, rep p lo (u ++ s') g k = Some y.
Proof.
  intros Hu. revert lo. induction Hu as [|c u Hc Hu IH]; intros lo Hlo Hk.
  - simpl in Hlo. assert (lo = 0)%nat as -> by lia.
    simpl. destruct s' as [|c s']; simpl; [eauto|].
    destruct (p c); [|eauto].
    destruct (rep p 0 s' g k); eauto.
  - simpl in *. rewrite Hc.
    destruct (IH (Nat.pred lo)) as [y Hy]; [lia|assumption|].
    rewrite Hy. eauto.
Qed.

(** With nothing after it that can fail, a greedy run stops only where the
    class stops. *)
Lemma rep_greedy p lo s g k x :
  (forall s' g', is_Some (k s' g')) ->
  rep p lo s g k = Some x ->
  exists u s', s = u ++ s' /\ (lo <= length u)%nat
               /\ Forall (fun c => p c = true) u /\ run_ends p s'
               /\ k s' g = Some x.
Proof.
  intros Hk. revert lo. induction s as [|c s IH]; intros lo H.
  - destruct lo; simpl in H; [|discriminate].
    exists [], []. repeat split; auto.
  - simpl in H. destruct (p c) eqn:Hc.
    + destruct (rep p (Nat.pred lo) s g k) eqn:Hr.
      * inversion H; subst.
        apply IH in Hr as (u & s' & -> & Hlo & Hu & He & Hk').
        exists (c :: u), s'. repeat split; simpl; auto; lia.
      * destruct lo; [|discriminate]. simpl in Hr.
        destruct (Hk s g) as [y Hy].
        destruct (rep_complete p 0 [] s g k y) as [z Hz]; simpl; auto.
        simpl in Hz. congruence.
    + destruct lo; [|discriminate].
      exists [], (c :: s). repeat split; simpl; auto.
Qed.

Lemma take_app_length' (u s' : pystr) :
  take (length (u ++ s') - length s') (u ++ s') = u.
Proof.
  rewrite length_app.
  replace (length u + length s' - length s')%nat with (length u) by lia.
  apply take_app_length.
Qed.

Lemma run_sound r : forall s g k x,
  run r s g k = Some x ->
  exists u s' g', s = u ++ s' /\ matches r u g g' /\ k s' g' = Some x.
Proof.
  induction r as [p|r1 IH1 r2 IH2|r1 IH1 r2 IH2|r1 IH1|p lo|r1 IH1];
    intros s g k x H; simpl in H.
  - destruct s as [|c s]; [discriminate|].
    destruct (p c) eqn:Hc; [|discriminate].
    exists [c], s, g. repeat split; auto. now constructor.
  - apply IH1 in H as (u & s1 & g1 & -> & Hm1 & H).
    apply IH2 in H as (v & s2 & g2 & -> & Hm2 & H).
    exists (u ++ v), s2, g2. rewrite <- app_assoc. repeat split; auto.
    econstructor; eauto.
  - destruct (run r1 s g k) eqn:H1.
    + inversion H; subst. apply IH1 in H1 as (u & s' & g' & -> & Hm & Hk).
      exists u, s', g'. repeat split; auto. now apply M_alt_l.
    + apply IH2 in H as (u & s' & g' & -> & Hm & Hk).
      exists u, s', g'. repeat split; auto. now apply M_alt_r.
  - destruct (run r1 s g k) eqn:H1.
    + inversion H; subst. apply IH1 in H1 as (u & s' & g' & -> & Hm & Hk).
      exists u, s', g'. repeat split; auto. now apply M_opt_some.
    + exists [], s, g. repeat split; auto. apply M_opt_none.
  - apply rep_sound in H as (u & s' & -> & Hlo & Hu & Hk).
    exists u, s', g. repeat split; auto. now constructor.
  - apply IH1 in H as (u & s' & g' & -> & Hm & Hk).
    rewrite take_app_length' in Hk.
    exists u, s', (Some u). repeat split; auto. econstructor; eauto.
Qed.

Lemma run_complete r u g g' :
  matches r u g g' ->
  forall s' k x, k s' g' = Some x -> exists y, run r (u ++ s') g k = Some y.
Proof.
  induction 1 as [p c g Hc|r1 r2 u v g g1 g2 _ IH1 _ IH2|r1 r2 u g g' _ IH
                 |r1 r2 u g g' _ IH|r u g g' _ IH|r g|p lo u g Hlo Hu
                 |r u g g' _ IH]; intros s' k x Hk; simpl.
  - rewrite Hc. eauto.
  - destruct (IH2 _ _ _ Hk) as [y Hy].
    rewrite <- app_assoc. eapply IH1. exact Hy.
  - destruct (IH _ _ _ Hk) as [y Hy]. rewrite Hy. eauto.
  - destruct (run r1 (u ++ s') g k); eauto.
  - destruct (IH _ _ _ Hk) as [y Hy]. rewrite Hy. eauto.
  - destruct (run r s' g k); eauto.
  - eapply rep_complete; eauto.
  - eapply IH. rewrite take_app_length'. exact Hk.
Qed.
End MatcherFacts.

Lemma match_here_sound r s m :
  match_here r s = Some m ->
  exists post, s = group0 m ++ post /\ matches r (group0 m) None (group1 m).
Proof.
  unfold match_here. intros H.
  apply run_sound in H as (u & s' & g' & -> & Hm & Hk).
  rewrite take_app_length' in Hk. inversion Hk; subst; simpl. eauto.
Qed.

Lemma match_here_complete r u post g :
  matches r u None g -> is_Some (match_here r (u ++ post)).
Proof.
  intros Hm. unfold match_here.
  set (k := fun s' g0 =>
              Some {| group0 := take (length (u ++ post) - length s') (u ++ post);
                      group1 := g0 |}).
  destruct (run_complete r u None g Hm post k _ eq_refl) as [y Hy].
  rewrite Hy. eauto.
Qed.

(** What [re.search] finds is a substring the pattern matches, and no match
    starts further left. *)
Lemma re_search_some r s m :
  re_search r s = Some m ->
  exists pre post,
    s = pre ++ group0 m ++ post
    /\ match_here r (group0 m ++ post) = Some m
    /\ matches r (group0 m) None (group1 m)
    /\ leftmost r s pre.
Proof.
  induction s as [|c s IH]; simpl.
  - destruct (match_here r []) eqn:Hh; [|discriminate].
    intros [= <-]. destruct (match_here_sound _ _ _ Hh) as (post & Hs & Hm).
    exists [], post. simpl. rewrite <- Hs. repeat split; auto.
    intros pre' u' _. simpl. lia.
  - destruct (match_here r (c :: s)) eqn:Hh.
    + intros [= <-]. destruct (match_here_sound _ _ _ Hh) as (post & Hs & Hm).
      exists [], post. simpl. rewrite <- Hs. repeat split; auto.
      intros pre' u' _. simpl. lia.
    + intros H. destruct (IH H) as (pre & post & -> & Hh' & Hm & Hl).
      exists (c :: pre), post. repeat split; auto.
      intros pre' u' (post' & g' & Hs & Hm').
      destruct pre' as [|c' pre']; simpl in Hs.
      * destruct (match_here_complete r u' post' g' Hm') as [y Hy].
        rewrite <- Hs in Hy. congruence.
      * inversion Hs; subst. simpl.
        assert (length pre <= length pre')%nat; [|lia].
        apply (Hl pre' u'). exists post', g'. auto.
Qed.

(** [re.search] returns [None] only when the pattern matches no substring. *)
Lemma re_search_none r s :
  re_search r s = None -> forall pre u, ~ occurs r s pre u.
Proof.
  induction s as [|c s IH]; simpl.
  - destruct (match_here r []) eqn:Hh; [discriminate|].
    intros _ pre u (post & g & Hs & Hm).
    destruct pre; [|discriminate]. simpl in Hs.
    destruct (match_here_complete r u post g Hm) as [y Hy].
    rewrite <- Hs in Hy. congruence.
  - destruct (match_here r (c :: s)) eqn:Hh; [discriminate|].
    intros H pre u (post & g & Hs & Hm).
    destruct pre as [|c' pre]; simpl in Hs.
    + destruct (match_here_complete r u post g Hm) as [y Hy].
      rewrite <- Hs in Hy. congruence.
    + inversion Hs; subst. apply (IH H pre u). exists post, g. auto.
Qed.

(* ===================================================================== *)
(** ** The two patterns *)
(* ===================================================================== *)

Lemma nonempty_length (u : pystr) n : (S n <= length u)%nat -> u <> [].
Proof. destruct u; simpl; [lia|discriminate]. Qed.

Lemma length_nonempty (u : pystr) : u <> [] -> (1 <= length u)%nat.
Proof. destruct u; simpl; [congruence|lia]. Qed.

Lemma lit_intro c g : matches (lit c) [c] g g.
Proof. unfold lit. constructor. apply N.eqb_refl. Qed.

Lemma matches_price d u g g' :
  matches (price_re d) u g g' <-> price_shape d u /\ g' = g.
Proof.
  unfold price_re. split.
  - unfold lit. intros H. repeat inv_matches;
      match goal with H : (rupee =? _) = true |- _ => apply N.eqb_eq in H as <- end;
      (split; [|reflexivity]).
    + exists [c0], v0. simpl. repeat split; eauto using nonempty_length.
    + exists [], v0. simpl. repeat split; eauto using nonempty_length.
  - intros [(ws & ds & -> & Hws & Hds & Hall) ->].
    change (rupee :: ws ++ ds) with ([rupee] ++ ws ++ ds).
    econstructor; [apply lit_intro|].
    econstructor.
    + destruct Hws as [->|(w & -> & Hw)]; [apply M_opt_none|].
      apply M_opt_some. now constructor.
    + constructor; [|assumption]. now apply length_nonempty.
Qed.

Lemma matches_location u g g' :
  matches location_re u g g' <-> exists grp, g' = Some grp /\ location_shape u grp.
Proof.
  unfold location_re. split.
  - simpl; unfold lit. intros H. repeat inv_matches;
      repeat match goal with H : (_ =? _) = true |- _ => apply N.eqb_eq in H as <- end.
    all: eexists; split; [reflexivity|].
    all: do 4 eexists; split; [reflexivity|]; split; [reflexivity|].
    all: repeat split; eauto using nonempty_length.
    + left. reflexivity.
    + right; left. reflexivity.
    + right; right. reflexivity.
  - intros (grp & -> & conn & ws & c & tail & -> & -> & Hc & Hws & Hsp & Hup
            & Htl & Hlen).
    assert (matches
              (Alt (word 105 [110]) (Alt (word 97 [116]) (lit bullet)))
              conn g g) as Hconn.
    { destruct Hc as [->|[->| ->]].
      - apply M_alt_l. simpl. apply (M_seq _ _ [105] [110] g g g); apply lit_intro.
      - apply M_alt_r, M_alt_l. simpl.
        apply (M_seq _ _ [97] [116] g g g); apply lit_intro.
      - apply M_alt_r, M_alt_r. apply lit_intro. }
    econstructor; [exact Hconn|].
    econstructor.
    + constructor; [|exact Hsp]. now apply length_nonempty.
    + econstructor. change (c :: tail) with ([c] ++ tail).
      econstructor; [now constructor|]. now constructor.
Qed.

Lemma take_rest (a : pystr) (s' full : pystr) :
  full = a ++ s' -> take (length full - length s') full = a.
Proof. intros ->. apply take_app_length'. Qed.

Lemma run_seq {R} r1 r2 s g (k : @kont R) x :
  run (Seq r1 r2) s g k = Some x ->
  exists u s1 g1, s = u ++ s1 /\ matches r1 u g g1 /\ run r2 s1 g1 k = Some x.
Proof. simpl. apply run_sound. Qed.

Lemma run_grp {R} r s g (k : @kont R) x :
  run (Grp r) s g k = Some x ->
  run r s g (fun s' _ => k s' (Some (take (length s - length s') s))) = Some x.
Proof. now simpl. Qed.

Lemma run_rep_greedy {R} p lo s g (k : @kont R) x :
  (forall s' g', is_Some (k s' g')) ->
  run (Rep p lo) s g k = Some x ->
  exists u s', s = u ++ s' /\ matches (Rep p lo) u g g /\ run_ends p s'
               /\ k s' g = Some x.
Proof.
  intros Hk H. simpl in H.
  apply rep_greedy in H as (u & s' & -> & Hlo & Hu & He & H); [|assumption].
  exists u, s'. repeat split; auto. now constructor.
Qed.

Lemma price_here d s m :
  match_here (price_re d) s = Some m ->
  exists post,
    s = group0 m ++ post /\ price_shape d (group0 m)
    /\ run_ends (amount_char d) post /\ group1 m = None.
Proof.
  unfold match_here, price_re. intros H.
  apply run_seq in H as (u1 & s1 & g1 & -> & H1 & H).
  apply run_seq in H as (u2 & s2 & g2 & -> & H2 & H).
  apply run_rep_greedy in H as (u3 & s3 & -> & H3 & Hend & H); [|eauto].
  rewrite (take_rest (u1 ++ u2 ++ u3)) in H by now rewrite <- !app_assoc.
  inversion H; subst; clear H. simpl.
  assert (matches (price_re d) (u1 ++ u2 ++ u3) None g2) as Hm.
  { unfold price_re. repeat (econstructor; [eassumption|]). assumption. }
  apply matches_price in Hm as [Hs ->].
  exists s3. rewrite <- !app_assoc. auto.
Qed.

Lemma location_here s m :
  match_here location_re s = Some m ->
  exists grp post,
    s = group0 m ++ post /\ group1 m = Some grp
    /\ location_shape (group0 m) grp /\ run_ends place_char post.
Proof.
  unfold match_here, location_re. intros H.
  apply run_seq in H as (u1 & s1 & g1 & -> & H1 & H).
  apply run_seq in H as (u2 & s2 & g2 & -> & H2 & H).
  apply run_grp in H.
  apply run_seq in H as (u3 & s3 & g3 & -> & H3 & H).
  apply run_rep_greedy in H as (u4 & s4 & -> & H4 & Hend & H); [|eauto].
  rewrite (take_rest (u3 ++ u4) s4 (u3 ++ u4 ++ s4)),
    (take_rest (u1 ++ u2 ++ u3 ++ u4) s4) in H
    by now rewrite <- !app_assoc.
  inversion H; subst; clear H. simpl.
  assert (matches location_re (u1 ++ u2 ++ u3 ++ u4) None (Some (u3 ++ u4)))
    as Hm.
  { unfold location_re. repeat (econstructor; [eassumption|]).
    econstructor. econstructor; eassumption. }
  apply matches_location in Hm as (grp & [= <-] & Hs).
  exists (u3 ++ u4), s4. rewrite <- !app_assoc. auto.
Qed.

(** *** [str.strip] *)

Lemma lstrip_spec s :
  exists l, s = l ++ lstrip s /\ Forall (fun c => isspace c = true) l
            /\ run_ends isspace (lstrip s).
Proof.
  induction s as [|c s (l & Hs & Hl & He)]; simpl.
  - exists []. auto.
  - destruct (isspace c) eqn:Hc.
    + exists (c :: l). simpl. rewrite <- Hs. auto.
    + exists []. simpl. auto.
Qed.

Lemma strip_spec s :
  exists l r,
    s = l ++ strip s ++ r
    /\ Forall (fun c => isspace c = true) l
    /\ Forall (fun c => isspace c = true) r
    /\ run_ends isspace (strip s)
    /\ run_ends isspace (rev (strip s)).
Proof.
  unfold strip.
  destruct (lstrip_spec s) as (l & Hs & Hl & He).
  destruct (lstrip_spec (rev (lstrip s))) as (r & Hr & Hsp & He').
  exists l, (rev r). rewrite rev_involutive.
  assert (lstrip s = rev (lstrip (rev (lstrip s))) ++ rev r) as Ht.
  { rewrite <- rev_app_distr, <- Hr. now rewrite rev_involutive. }
  repeat split; auto.
  - now rewrite <- Ht.
  - now apply List.Forall_rev.
  - rewrite Ht in He.
    destruct (rev (lstrip (rev (lstrip s)))); simpl in *; auto.
Qed.

(* ===================================================================== *)
(** ** The tree, the walk up and the loop over the anchors *)
(* ===================================================================== *)



Section ExtractFacts.
Context {P : Platform}.



Lemma bubble_up_spec n t :
  exists anc,
    bubble_up n (Some t) = Some anc
    /\ links_up (Nat.min n (length (tag_up t))) t = Some anc
    /\ ((length (tag_up t) < n)%nat -> tag_parent anc = None).
Proof.
  revert t. induction n as [|n IH]; intros t.
  - exists t. simpl. repeat split; auto. lia.
  - simpl. destruct t as [nd up]. unfold tag_parent at 1 2. simpl.
    destruct up as [|p up]; simpl.
    + exists {| tag_node := nd; tag_up := [] |}. repeat split; auto.
    + destruct (IH {| tag_node := p; tag_up := up |}) as (anc & Hb & Hl & Hs).
      simpl in *. exists anc. repeat split; auto. intros; apply Hs; lia.
Qed.

Lemma make_listing_url a u : url (make_listing a u) = u.
Proof.
  unfold make_listing. now destruct (context_fields _) as [[? ?] ?].
Qed.

Lemma extract_step_card_url results seen a :
  extract_step (results, seen) a =
  match card_url a with
  | Some u =>
    if bool_decide (u ∈ seen) then (results, seen)
    else (results ++ [make_listing a u], seen ∪ {[u]})
  | None => (results, seen)
  end.
Proof.
  unfold extract_step, card_url.
  destruct (tag_get a (txt "href")) as [href|]; [|reflexivity].
  now destruct (nonempty href).
Qed.

Lemma first_card_app_l cs cs' u a :
  first_card cs u = Some a -> first_card (cs ++ cs') u = Some a.
Proof.
  unfold first_card. induction cs as [|c cs IH]; simpl; [discriminate|].
  destruct (bool_decide _); auto.
Qed.

Lemma first_card_app_r cs a u :
  (forall c, In c cs -> card_url c <> Some u) ->
  card_url a = Some u ->
  first_card (cs ++ [a]) u = Some a.
Proof.
  unfold first_card. intros Hcs Ha. induction cs as [|c cs IH]; simpl.
  - rewrite bool_decide_eq_true_2; auto.
  - rewrite bool_decide_eq_false_2; [|apply Hcs; now left].
    apply IH. intros c' Hc'. apply Hcs. now right.
Qed.

Lemma first_card_some cs u a :
  first_card cs u = Some a -> In a cs /\ card_url a = Some u.
Proof.
  unfold first_card. intros H. apply find_some in H as [Hin Hb].
  split; [assumption|]. now apply bool_decide_eq_true in Hb.
Qed.

Lemma filter_has_href_snoc done a :
  length (List.filter has_href (done ++ [a])) =
  (length (List.filter has_href done) + if has_href a then 1 else 0)%nat.
Proof.
  rewrite List.filter_app, length_app. simpl. now destruct (has_href a).
Qed.

Lemma extract_step_inv done st a :
  extract_inv done st -> extract_inv (done ++ [a]) (extract_step st a).
Proof.
  destruct st as [results seen]. intros (Hseen & Hnd & Hfirst & Hall & Hlen).
  rewrite extract_step_card_url. simpl in Hseen, Hnd, Hfirst, Hall, Hlen.
  pose proof (filter_has_href_snoc done a) as Hf. unfold has_href at 3 in Hf.
  destruct (card_url a) as [u|] eqn:Hu.
  - destruct (bool_decide (u ∈ seen)) eqn:Hd.
    + apply bool_decide_eq_true in Hd.
      repeat split; simpl; try apply Hseen; auto; try lia.
      * intros r Hr. destruct (Hfirst r Hr) as (a' & Ha' & Hr').
        exists a'. split; [now apply first_card_app_l|exact Hr'].
      * intros a' u' Hin Hc. apply in_app_or in Hin as [Hin|[<-|[]]]; eauto.
        congruence.
    + apply bool_decide_eq_false in Hd.
      assert (~ In u (map url results)) as Hnin by now rewrite <- Hseen.
      repeat split; simpl.
      * rewrite map_app, in_app_iff, elem_of_union, elem_of_singleton.
        simpl. rewrite make_listing_url, Hseen. intuition.
      * rewrite map_app, in_app_iff, elem_of_union, elem_of_singleton.
        simpl. rewrite make_listing_url, Hseen. intuition.
      * rewrite map_app. simpl. rewrite make_listing_url.
        apply NoDup_app. repeat split; auto.
        -- intros x Hx Hx'. apply list_elem_of_In in Hx.
           apply list_elem_of_singleton in Hx'. congruence.
        -- apply NoDup_singleton.
      * intros r Hr. apply in_app_or in Hr as [Hr|[<-|[]]].
        -- destruct (Hfirst r Hr) as (a' & Ha' & Hr').
           exists a'. split; [now apply first_card_app_l|exact Hr'].
        -- rewrite make_listing_url. exists a. split; [|reflexivity].
           apply first_card_app_r; [|assumption].
           intros c Hc Heq. apply Hd. eauto.
      * intros a' u' Hin Hc. rewrite elem_of_union, elem_of_singleton.
        apply in_app_or in Hin as [Hin|[<-|[]]]; [left; eauto|].
        right. congruence.
      * rewrite length_app. simpl. lia.
  - repeat split; simpl; try apply Hseen; auto; try lia.
    + intros r Hr. destruct (Hfirst r Hr) as (a' & Ha' & Hr').
      exists a'. split; [now apply first_card_app_l|exact Hr'].
    + intros a' u' Hin Hc. apply in_app_or in Hin as [Hin|[<-|[]]]; eauto.
      congruence.
Qed.

Lemma extract_fold_inv l : forall done st,
  extract_inv done st -> extract_inv (done ++ l) (fold_left extract_step l st).
Proof.
  induction l as [|a l IH]; intros done st H; simpl.
  - now rewrite app_nil_r.
  - replace (done ++ a :: l) with ((done ++ [a]) ++ l)
      by now rewrite <- app_assoc.
    apply IH. now apply extract_step_inv.
Qed.

Lemma extract_listings_inv html :
  extract_inv (cards html)
              (fold_left extract_step (cards html) ([], ∅)).
Proof.
  apply (extract_fold_inv (cards html) [] ([], ∅)).
  repeat split; simpl; auto; try set_solver; try constructor; intros []; auto.
Qed.
End ExtractFacts.

(* ===================================================================== *)
(** ** The page loop *)
(* ===================================================================== *)

Section ScrapeFacts.
Context {P : Platform}.
Implicit Types (w : world) (d : Q) (k j n p q : nat).

(** *** [fetch_page] *)

Lemma fetch_page_eq u w :
  fetch_page u w =
  (fetched u,
   {| stdout := stdout w; stderr := stderr w ++ fetch_log u;
      files := files w; slept := slept w;
      sent := sent w ++ [request_for u] |}).
Proof.
  unfold fetch_page, fetched, fetch_log, bind, get, request_for. simpl.
  destruct (session_get _) as [sc text|e]; simpl.
  - destruct (sc =? 200)%Z; simpl; [now rewrite app_nil_r|reflexivity].
  - reflexivity.
Qed.

Lemma scrape_loop_no_html page_num rest d all_rows seen_urls w :
  no_html (fetched (next_page_url page_num)) = true ->
  scrape_loop (page_num :: rest) d all_rows seen_urls w
  = (all_rows, stopped_world page_num w).
Proof.
  intros H. cbn [scrape_loop]. unfold bind at 1 2. unfold print at 1.
  rewrite fetch_page_eq, H. unfold bind, print, ret, stopped_world. simpl.
  now rewrite <- app_assoc.
Qed.

Lemma scrape_loop_html page_num rest d all_rows seen_urls w :
  no_html (fetched (next_page_url page_num)) = false ->
  scrape_loop (page_num :: rest) d all_rows seen_urls w
  = let rows := extract_listings (body_of (fetched (next_page_url page_num))) in
    let new_rows :=
      List.filter (fun r => negb (bool_decide (url r ∈ seen_urls))) rows in
    match new_rows with
    | [] => (all_rows, no_new_world page_num w)
    | _ :: _ =>
      scrape_loop rest d (all_rows ++ new_rows)
                  (seen_urls ∪ list_to_set (map url new_rows))
                  (next_world page_num d w)
    end.
Proof.
  intros H. cbn [scrape_loop]. unfold bind at 1 2. unfold print at 1.
  rewrite fetch_page_eq, H. cbv zeta.
  destruct (List.filter _ _) as [|r new_rows] eqn:Hn.
  - unfold bind, print, ret, no_new_world. simpl. now rewrite <- app_assoc.
  - unfold bind, sleep, next_world. simpl. reflexivity.
Qed.

Lemma new_rows_of_seen acc rows :
  List.filter
    (fun r => negb (bool_decide (url r ∈ (list_to_set (map url acc) : gset pystr))))
    rows
  = new_rows_of acc rows.
Proof.
  unfold new_rows_of. apply List.filter_ext. intros r. f_equal.
  apply bool_decide_ext. apply elem_of_list_to_set.
Qed.

Lemma contributes_S k :
  contributes (S k) <->
  no_html (fetched (next_page_url (Z.of_nat (S k)))) = false
  /\ new_rows_of (accumulated k) (page_rows (S k)) <> [].
Proof. reflexivity. Qed.

(** The loop started on pages [k+1 .. k+n] with the rows of pages [1..k]. *)
Lemma scrape_loop_run n : forall k d w,
  exists j w',
    scrape_loop (map Z.of_nat (seq (S k) n)) d (accumulated k)
                (list_to_set (map url (accumulated k))) w
    = (accumulated j, w')
    /\ (k <= j <= k + n)%nat
    /\ (forall q, (k < q <= j)%nat -> contributes q)
    /\ (j = (k + n)%nat \/ ~ contributes (S j))
    /\ sent w' = sent w ++ map page_request (seq (S k) (Nat.min (S j - k) n))
    /\ files w' = files w.
Proof.
  induction n as [|n IH]; intros k d w.
  - exists k, w. simpl. rewrite Nat.min_0_r. simpl. rewrite app_nil_r.
    repeat split; auto; try lia; try (intros q Hq; lia).
  - cbn [seq map].
    destruct (no_html (fetched (next_page_url (Z.of_nat (S k))))) eqn:Hf.
    + rewrite scrape_loop_no_html by assumption.
      exists k, (stopped_world (Z.of_nat (S k)) w).
      replace (Nat.min (S k - k) (S n)) with 1%nat by lia.
      repeat split; auto; try lia; try (intros q Hq; lia).
      right. rewrite contributes_S. intros [Hc _]. congruence.
    + rewrite scrape_loop_html by assumption. cbv zeta.
      rewrite new_rows_of_seen. fold (page_rows (S k)).
      destruct (new_rows_of (accumulated k) (page_rows (S k)))
        as [|r new_rows] eqn:Hn.
      * exists k, (no_new_world (Z.of_nat (S k)) w).
        replace (Nat.min (S k - k) (S n)) with 1%nat by lia.
        repeat split; auto; try lia; try (intros q Hq; lia).
        right. rewrite contributes_S. intros [_ Hc]. congruence.
      * assert (contributes (S k)) as Hck.
        { rewrite contributes_S, Hn. split; [assumption|discriminate]. }
        replace (list_to_set (map url (accumulated k))
                 ∪ list_to_set (map url (r :: new_rows)) : gset pystr)
          with (list_to_set (map url (accumulated (S k))) : gset pystr).
        2:{ cbn [accumulated]. rewrite Hn, map_app. apply list_to_set_app_L. }
        replace (accumulated k ++ r :: new_rows) with (accumulated (S k))
          by (cbn [accumulated]; now rewrite Hn).
        destruct (IH (S k) d (next_world (Z.of_nat (S k)) d w))
          as (j & w' & Hrun & Hj & Hall & Hstop & Hsent & Hfiles).
        exists j, w'. rewrite Hrun.
        split; [reflexivity|]. split; [lia|]. split; [|split; [|split]].
        -- intros q Hq. destruct (decide (q = S k)) as [->|Hne]; auto.
           apply Hall. lia.
        -- destruct Hstop as [->|Hstop]; [left; lia|now right].
        -- rewrite Hsent. simpl. rewrite <- app_assoc. f_equal.
           replace (Nat.min (S j - k) (S n)) with (S (Nat.min (S j - S k) n))
             by lia.
           reflexivity.
        -- exact Hfiles.
Qed.

Lemma py_range_pages (max_pages : Z) :
  py_range 1 (max_pages + 1) = map Z.of_nat (seq 1 (Z.to_nat max_pages)).
Proof.
  unfold py_range. replace (max_pages + 1 - 1)%Z with max_pages by lia.
  rewrite <- seq_shift, map_map. apply map_ext. intros i. lia.
Qed.

(** [scrape] returns the rows of the pages it completed, and asks for no
    page after the one it stopped on. *)
Lemma scrape_run max_pages d w :
  exists j w',
    scrape max_pages d w = (accumulated j, w')
    /\ completes (Z.to_nat max_pages) j
    /\ sent w' = sent w
                 ++ map page_request
                        (seq 1 (Nat.min (S j) (Z.to_nat max_pages)))
    /\ files w' = files w.
Proof.
  unfold scrape. rewrite py_range_pages.
  destruct (scrape_loop_run (Z.to_nat max_pages) 0 d w)
    as (j & w' & Hrun & Hj & Hall & Hstop & Hsent & Hfiles).
  simpl in Hrun. exists j, w'. rewrite Hrun.
  rewrite Nat.sub_0_r in Hsent.
  split; [reflexivity|]. split; [|split; assumption].
  split; [lia|]. split; [|destruct Hstop; auto].
  intros q Hq. apply Hall. lia.
Qed.

Lemma completes_unique n n' j j' p :
  completes n j -> completes n' j' ->
  (1 <= p <= n)%nat -> n' = Nat.pred p -> ~ contributes p -> j = j'.
Proof.
  intros (Hj & Hall & Hstop) (Hj' & Hall' & Hstop') Hp -> Hnc.
  assert (j < p)%nat as Hlt.
  { destruct (decide (j < p)%nat) as [|Hge]; [assumption|].
    exfalso. apply Hnc, Hall. lia. }
  destruct (Nat.lt_trichotomy j j') as [H|[H|H]]; [|assumption|].
  - exfalso. destruct Hstop as [->|Hstop]; [lia|].
    apply Hstop, Hall'. lia.
  - exfalso. destruct Hstop' as [->|Hstop']; [lia|].
    apply Hstop', Hall. lia.
Qed.
End ScrapeFacts.

(* ===================================================================== *)
(** ** The rows gathered page after page *)
(* ===================================================================== *)

Section FindFacts.
Context {A : Type}.

Lemma find_app_l (f : A -> bool) l l' x :
  List.find f l = Some x -> List.find f (l ++ l') = Some x.
Proof.
  induction l as [|a l IH]; simpl; [discriminate|]. destruct (f a); auto.
Qed.

Lemma find_app_r (f : A -> bool) l l' :
  List.find f l = None -> List.find f (l ++ l') = List.find f l'.
Proof.
  induction l as [|a l IH]; simpl; [reflexivity|].
  destruct (f a); [discriminate|auto].
Qed.

Lemma NoDup_map_filter {B} (f : A -> B) (g : A -> bool) l :
  NoDup (map f l) -> NoDup (map f (List.filter g l)).
Proof.
  induction l as [|a l IH]; simpl; intros H; [constructor|].
  apply NoDup_cons in H as [Hn Hd].
  destruct (g a); simpl; auto.
  apply NoDup_cons. split; auto.
  intros Hin. apply Hn. apply list_elem_of_In in Hin.
  apply list_elem_of_In. apply in_map_iff in Hin as (x & Hx & Hin).
  apply in_map_iff. exists x. split; [assumption|].
  apply List.filter_In in Hin. tauto.
Qed.

Lemma find_unique {B} `{EqDecision B} (f : A -> B) l r :
  NoDup (map f l) -> In r l ->
  List.find (fun x => bool_decide (f x = f r)) l = Some r.
Proof.
  induction l as [|a l IH]; simpl; intros Hn Hin; [destruct Hin|].
  apply NoDup_cons in Hn as [Hna Hn].
  destruct Hin as [->|Hin].
  - now rewrite bool_decide_eq_true_2.
  - rewrite bool_decide_eq_false_2; auto.
    intros Heq. apply Hna. rewrite Heq. apply list_elem_of_In.
    now apply in_map.
Qed.
End FindFacts.

Section Accumulated.
Context {P : Platform}.

Lemma extract_listings_eq html :
  extract_listings html = (fold_left extract_step (cards html) ([], ∅)).1.
Proof. reflexivity. Qed.

Lemma extract_listings_NoDup html : NoDup (map url (extract_listings html)).
Proof. rewrite extract_listings_eq. apply extract_listings_inv. Qed.

Lemma extract_listings_first html r :
  In r (extract_listings html) ->
  exists a, first_card (cards html) (url r) = Some a
            /\ r = make_listing a (url r).
Proof. rewrite extract_listings_eq. apply extract_listings_inv. Qed.

Lemma extract_listings_length html :
  (length (extract_listings html)
   <= length (List.filter has_href (cards html)))%nat.
Proof. rewrite extract_listings_eq. apply extract_listings_inv. Qed.

Lemma new_rows_of_In acc rows r :
  In r (new_rows_of acc rows) <-> In r rows /\ ~ In (url r) (map url acc).
Proof.
  unfold new_rows_of. rewrite List.filter_In, negb_true_iff.
  rewrite bool_decide_eq_false, list_elem_of_In. reflexivity.
Qed.

Lemma accumulated_NoDup j : NoDup (map url (accumulated j)).
Proof.
  induction j as [|j IH]; simpl; [constructor|].
  rewrite map_app. apply NoDup_app. repeat split; auto.
  - intros u Hu Hu'. apply list_elem_of_In in Hu, Hu'.
    apply in_map_iff in Hu' as (r & <- & Hr).
    apply new_rows_of_In in Hr as [_ Hr]. contradiction.
  - apply NoDup_map_filter, extract_listings_NoDup.
Qed.

Lemma accumulated_In j r :
  In r (accumulated j) -> exists q, (1 <= q <= j)%nat /\ In r (page_rows q).
Proof.
  induction j as [|j IH]; simpl; [intros []|].
  intros H. apply in_app_or in H as [H|H].
  - destruct (IH H) as (q & Hq & Hin). exists q. split; [lia|assumption].
  - apply new_rows_of_In in H as [H _]. exists (S j). split; [lia|assumption].
Qed.

Lemma produced_app j m :
  produced (j + m) = produced j ++ flat_map page_rows (seq (S j) m).
Proof. unfold produced. now rewrite seq_app, flat_map_app. Qed.

Lemma produced_S j : produced (S j) = produced j ++ page_rows (S j).
Proof.
  replace (S j) with (j + 1)%nat at 1 by lia. rewrite produced_app. simpl.
  now rewrite app_nil_r.
Qed.

Lemma produced_urls j x :
  In x (produced j) -> In (url x) (map url (accumulated j)).
Proof.
  induction j as [|j IH]; [intros H; inversion H|].
  rewrite produced_S. cbn [accumulated]. intros H.
  rewrite map_app. apply in_or_app.
  apply in_app_or in H as [H|H]; [left; auto|].
  destruct (decide (url x ∈ map url (accumulated j))) as [Hd|Hd];
    [left; now apply list_elem_of_In|right].
  apply in_map. apply new_rows_of_In. split; [assumption|].
  now rewrite <- list_elem_of_In.
Qed.

(** Of all the records the pages produced, in page order, the one kept for
    a URL is the first. *)
Lemma accumulated_first j r :
  In r (accumulated j) ->
  List.find (fun x => bool_decide (url x = url r)) (produced j) = Some r.
Proof.
  induction j as [|j IH]; [intros H; inversion H|].
  rewrite produced_S. cbn [accumulated]. intros H.
  apply in_app_or in H as [H|H].
  - apply find_app_l. auto.
  - apply new_rows_of_In in H as [Hin Hnew].
    rewrite find_app_r.
    + apply find_unique; [apply extract_listings_NoDup|assumption].
    + destruct (List.find _ (produced j)) as [x|] eqn:Hf; [|reflexivity].
      apply find_some in Hf as [Hx Hu]. apply bool_decide_eq_true in Hu.
      exfalso. apply Hnew. rewrite <- Hu. now apply produced_urls.
Qed.

Lemma accumulated_first_later j k r :
  (j <= k)%nat -> In r (accumulated j) ->
  List.find (fun x => bool_decide (url x = url r)) (produced k) = Some r.
Proof.
  intros Hjk H. replace k with (j + (k - j))%nat by lia.
  rewrite produced_app. apply find_app_l. now apply accumulated_first.
Qed.

Lemma not_contributes p :
  ~ contributes (S p) <->
  no_html (fetched (next_page_url (Z.of_nat (S p)))) = true
  \/ new_rows_of (accumulated p) (page_rows (S p)) = [].
Proof.
  rewrite contributes_S. split.
  - intros H. destruct (no_html _); [now left|right].
    destruct (new_rows_of _ _); [reflexivity|].
    exfalso. apply H. split; [reflexivity|discriminate].
  - intros [H|H] [H1 H2]; congruence.
Qed.
End Accumulated.

(* ===================================================================== *)
(** ** The fields of a record *)
(* ===================================================================== *)

Section FieldFacts.
Context {P : Platform}.

Lemma make_listing_fields a u :
  (price_guess (make_listing a u), location_guess (make_listing a u),
   snippet (make_listing a u))
  = context_fields (bubble_up 3 (Some a)).
Proof.
  unfold make_listing. now destruct (context_fields _) as [[? ?] ?].
Qed.

Lemma context_text_fields a text :
  context_text a = Some text ->
  context_fields (bubble_up 3 (Some a))
  = (price_in text, location_in text,
     if nonempty text then Some (take 300 text) else None).
Proof.
  unfold context_text. destruct (bubble_up 3 (Some a)) as [t|]; [|discriminate].
  intros [= <-]. reflexivity.
Qed.

Lemma price_guess_text a u text :
  context_text a = Some text -> price_guess (make_listing a u) = price_in text.
Proof.
  intros H. pose proof (make_listing_fields a u) as E.
  rewrite (context_text_fields a text H) in E. congruence.
Qed.

Lemma location_guess_text a u text :
  context_text a = Some text ->
  location_guess (make_listing a u) = location_in text.
Proof.
  intros H. pose proof (make_listing_fields a u) as E.
  rewrite (context_text_fields a text H) in E. congruence.
Qed.

Lemma snippet_text a u text :
  context_text a = Some text ->
  snippet (make_listing a u)
  = if nonempty text then Some (take 300 text) else None.
Proof.
  intros H. pose proof (make_listing_fields a u) as E.
  rewrite (context_text_fields a text H) in E. congruence.
Qed.

(** *** The price *)

Lemma occurs_price text pre p :
  occurs (price_re isdecimal) text pre p <->
  (exists post, text = pre ++ p ++ post) /\ price_shape isdecimal p.
Proof.
  unfold occurs. split.
  - intros (post & g & Ht & Hm). apply matches_price in Hm as [Hs _]. eauto.
  - intros [(post & Ht) Hs]. exists post, None. split; [assumption|].
    apply matches_price. auto.
Qed.

Lemma price_in_some text p :
  price_in text = Some p ->
  exists pre post,
    text = pre ++ p ++ post
    /\ price_shape isdecimal p
    /\ run_ends (amount_char isdecimal) post
    /\ (forall pre' p' post',
          text = pre' ++ p' ++ post' -> price_shape isdecimal p' ->
          (length pre <= length pre')%nat).
Proof.
  unfold price_in.
  destruct (re_search (price_re isdecimal) text) as [m|] eqn:Hs; [|discriminate].
  intros [= <-].
  apply re_search_some in Hs as (pre & post & Ht & Hh & _ & Hl).
  apply price_here in Hh as (post' & Hp & Hshape & Hend & _).
  apply app_inv_head in Hp as <-.
  exists pre, post. repeat split; auto.
  intros pre' p' post' Ht' Hs'. apply (Hl pre' p').
  apply occurs_price. eauto.
Qed.

Lemma price_in_none text :
  price_in text = None ->
  forall pre p post, text = pre ++ p ++ post -> ~ price_shape isdecimal p.
Proof.
  unfold price_in.
  destruct (re_search (price_re isdecimal) text) as [m|] eqn:Hs; [discriminate|].
  intros _ pre p post Ht Hp.
  apply (re_search_none _ _ Hs pre p). apply occurs_price. eauto.
Qed.

(** *** The location *)

Lemma occurs_location text pre m :
  occurs location_re text pre m <->
  (exists post, text = pre ++ m ++ post) /\ exists grp, location_shape m grp.
Proof.
  unfold occurs. split.
  - intros (post & g & Ht & Hm).
    apply matches_location in Hm as (grp & _ & Hs). eauto.
  - intros [(post & Ht) (grp & Hs)]. exists post, (Some grp).
    split; [assumption|]. apply matches_location. eauto.
Qed.

Lemma upper_not_space c : upper c = true -> isspace c = false.
Proof.
  unfold upper, isspace. intros H. apply andb_true_iff in H as [H1 H2].
  apply N.leb_le in H1, H2.
  repeat (apply orb_false_iff; split);
    try (apply andb_false_iff);
    rewrite ?N.leb_gt, ?N.eqb_neq; lia.
Qed.

(** Stripping a capture only drops whitespace at its end. *)
Lemma strip_capture c tail :
  upper c = true ->
  exists sp,
    c :: tail = strip (c :: tail) ++ sp
    /\ Forall (fun x => isspace x = true) sp
    /\ run_ends isspace (rev (strip (c :: tail)))
    /\ exists rest, strip (c :: tail) = c :: rest.
Proof.
  intros Hc. pose proof (upper_not_space c Hc) as Hsp.
  destruct (strip_spec (c :: tail)) as (l & r & Hs & Hl & Hr & Hhead & Hlast).
  assert (l = []) as ->.
  { destruct l as [|x l]; [reflexivity|].
    inversion Hs; subst. inversion Hl; subst. congruence. }
  simpl in Hs. exists r. repeat split; auto.
  destruct (strip (c :: tail)) as [|x rest] eqn:E.
  - simpl in Hs. destruct r as [|x r]; [discriminate|].
    inversion Hs; subst. inversion Hr; subst. congruence.
  - inversion Hs; subst. eauto.
Qed.

Lemma location_in_some text loc :
  location_in text = Some loc ->
  exists pre m grp post,
    text = pre ++ m ++ post
    /\ location_shape m grp
    /\ run_ends place_char post
    /\ loc = strip grp
    /\ (forall pre' m' grp' post',
          text = pre' ++ m' ++ post' -> location_shape m' grp' ->
          (length pre <= length pre')%nat).
Proof.
  unfold location_in.
  destruct (re_search location_re text) as [m|] eqn:Hs; [|discriminate].
  apply re_search_some in Hs as (pre & post & Ht & Hh & _ & Hl).
  apply location_here in Hh as (grp & post' & Hp & Hg & Hshape & Hend).
  apply app_inv_head in Hp as <-. rewrite Hg. intros [= <-].
  exists pre, (group0 m), grp, post. repeat split; auto.
  intros pre' m' grp' post' Ht' Hs'. apply (Hl pre' m').
  apply occurs_location. eauto.
Qed.

Lemma location_in_none text :
  location_in text = None ->
  forall pre m grp post, text = pre ++ m ++ post -> ~ location_shape m grp.
Proof.
  unfold location_in.
  destruct (re_search location_re text) as [m|] eqn:Hs.
  - apply re_search_some in Hs as (pre & post & Ht & Hh & _ & Hl).
    apply location_here in Hh as (grp & post' & Hp & Hg & _).
    rewrite Hg. discriminate.
  - intros _ pre m grp post Ht Hm.
    apply (re_search_none _ _ Hs pre m). apply occurs_location. eauto.
Qed.
End FieldFacts.

(* ===================================================================== *)
(** ** Further facts about the two loops *)
(* ===================================================================== *)

Section LoopFacts.
Context {P : Platform}.

Lemma extract_step_skip st a : has_href a = false -> extract_step st a = st.
Proof.
  destruct st as [results seen]. rewrite extract_step_card_url.
  unfold has_href. now destruct (card_url a).
Qed.

Lemma no_href_skipped a :
  tag_get a (txt "href") = None -> has_href a = false.
Proof. unfold has_href, card_url. now intros ->. Qed.

(** The anchors that fail the [href] test can be left out of the loop. *)
Lemma extract_fold_filter l : forall st,
  fold_left extract_step (List.filter has_href l) st
  = fold_left extract_step l st.
Proof.
  induction l as [|a l IH]; intros st; cbn [List.filter fold_left];
    [reflexivity|].
  destruct (has_href a) eqn:Ha; cbn [fold_left]; [apply IH|].
  rewrite (extract_step_skip st a Ha). apply IH.
Qed.

(** A pass over anchors whose URLs are all in [seen] changes nothing. *)
Lemma extract_fold_seen (l : list tag) (results : list listing)
    (seen : gset pystr) :
  (forall a u, In a l -> card_url a = Some u -> u ∈ seen) ->
  fold_left extract_step l (results, seen) = (results, seen).
Proof.
  induction l as [|a l IH]; intros H; cbn [fold_left]; [reflexivity|].
  rewrite extract_step_card_url.
  destruct (card_url a) as [u|] eqn:Hu.
  - rewrite bool_decide_eq_true_2 by (apply (H a u); [now left|assumption]).
    apply IH. intros a' u' Hin. apply H. now right.
  - apply IH. intros a' u' Hin. apply H. now right.
Qed.

Lemma fetched_None_no_html u : fetched u = None -> no_html (fetched u) = true.
Proof. now intros ->. Qed.

Lemma no_html_not_contributes p :
  no_html (fetched (next_page_url (Z.of_nat p))) = true -> ~ contributes p.
Proof. intros H [Hc _]. congruence. Qed.

(** A page that cannot contribute cuts the run: the rows are those of a run
    whose budget ends on the page before. *)
Lemma scrape_rows_cut max_pages p d w d' w' :
  (1 <= p <= Z.to_nat max_pages)%nat -> ~ contributes p ->
  (scrape max_pages d w).1 = (scrape (Z.of_nat p - 1) d' w').1.
Proof.
  intros Hp Hnc.
  destruct (scrape_run max_pages d w) as (j & w1 & -> & Hc & _).
  destruct (scrape_run (Z.of_nat p - 1) d' w') as (j' & w1' & -> & Hc' & _).
  simpl. f_equal.
  apply (completes_unique _ _ j j' p Hc Hc' Hp); [lia|assumption].
Qed.
End LoopFacts.

(** *** The URLs of the pages *)

Lemma bytes_of_inj s1 s2 : bytes_of s1 = bytes_of s2 -> s1 = s2.
Proof.
  unfold bytes_of. intros H.
  rewrite <- (string_of_list_ascii_of_string s1),
          <- (string_of_list_ascii_of_string s2).
  f_equal. revert H.
  generalize (list_ascii_of_string s1) (list_ascii_of_string s2).
  induction l as [|a l IH]; intros [|b l']; simpl; try discriminate; auto.
  intros [= Hab Hl]. f_equal; [|now apply IH].
  rewrite <- (ascii_N_embedding a), <- (ascii_N_embedding b). now rewrite Hab.
Qed.

Lemma to_int_not_nil z : Z.to_int z <> Decimal.Pos Decimal.Nil
                         /\ Z.to_int z <> Decimal.Neg Decimal.Nil.
Proof.
  split; intros H; pose proof (DecimalZ.of_to z) as E; rewrite H in E;
    simpl in E; subst z; discriminate.
Qed.

Lemma str_of_int_inj z1 z2 : str_of_int z1 = str_of_int z2 -> z1 = z2.
Proof.
  unfold str_of_int. intros H. apply bytes_of_inj in H.
  destruct (to_int_not_nil z1) as [H1 H1'], (to_int_not_nil z2) as [H2 H2'].
  pose proof (NilZero.isi (Z.to_int z1) H1 H1') as E1.
  pose proof (NilZero.isi (Z.to_int z2) H2 H2') as E2.
  rewrite H, E2 in E1. injection E1 as E.
  rewrite <- (DecimalZ.of_to z1), <- (DecimalZ.of_to z2). now rewrite E.
Qed.

(** The pages of a run are fetched from pairwise different URLs, so a
    network that answers by request says all that a run can see of it. *)
Lemma next_page_url_inj (p q : Z) :
  (1 <= p)%Z -> (1 <= q)%Z -> next_page_url p = next_page_url q -> p = q.
Proof.
  unfold next_page_url. intros Hp Hq.
  destruct (Z.leb_spec p 1) as [Hp1|Hp1], (Z.leb_spec q 1) as [Hq1|Hq1];
    try lia.
  - intros H. apply (f_equal length) in H. rewrite !length_app in H.
    change (length (txt "?page=")) with 6%nat in H. lia.
  - intros H. apply (f_equal length) in H. rewrite !length_app in H.
    change (length (txt "?page=")) with 6%nat in H. lia.
  - intros H. apply app_inv_head in H. apply app_inv_head in H.
    now apply str_of_int_inj.
Qed.

(** *** The example site *)

Lemma demo_urljoin_absolute href :
  href <> [] -> is_absolute (demo_urljoin SITE href) = true.
Proof.
  intros _. unfold demo_urljoin.
  destruct (is_absolute href) eqn:Ha; [assumption|].
  destruct (starts_with (txt "/") href); reflexivity.
Qed.
(* ===================================================================== *)
(** ** [urljoin] on the site's origin *)
(* ===================================================================== *)

Lemma starts_with_app (p r : pystr) : starts_with p (p ++ r) = true.
Proof.
  induction p as [|c p IH]; [reflexivity|].
  cbn [app starts_with]. now rewrite N.eqb_refl.
Qed.

Lemma starts_with_prefix (p s : pystr) :
  starts_with p s = true -> exists r, s = p ++ r.
Proof.
  revert s. induction p as [|c p IH]; intros s H.
  - now exists s.
  - destruct s as [|x s]; [discriminate|]. cbn [starts_with] in H.
    apply andb_true_iff in H as [Hc Hp]. apply N.eqb_eq in Hc as ->.
    destruct (IH s Hp) as [r ->]. now exists r.
Qed.

Lemma urlparse_SITE :
  urllib_parse.urlparse SITE []
  = {| urllib_parse.scheme := txt "https";
       urllib_parse.netloc := txt "www.olx.in";
       urllib_parse.path := []; urllib_parse.params := [];
       urllib_parse.query := []; urllib_parse.fragment := [] |}.
Proof. vm_compute. reflexivity. Qed.

Lemma https_among :
  urllib_parse.among (txt "https") urllib_parse.uses_relative = true
  /\ urllib_parse.among (txt "https") urllib_parse.uses_netloc = true
  /\ nonempty (txt "https") = true
  /\ nonempty SITE = true
  /\ txt "https://" = txt "https" ++ txt ":" ++ txt "//".
Proof. vm_compute. repeat split; reflexivity. Qed.

Lemma https_prefix_absolute (rest : pystr) :
  is_absolute (txt "https://" ++ rest) = true.
Proof.
  replace (txt "https://") with [104; 116; 116; 112; 115; 58; 47; 47]
    by (vm_compute; reflexivity).
  reflexivity.
Qed.

(** Whatever the other components are, a URL put together with the scheme
    [https] begins with [https://]. *)
Lemma urlunsplit_https (r : urllib_parse.SplitResult) :
  urllib_parse.s_scheme r = txt "https" ->
  exists rest, urllib_parse.urlunsplit r = txt "https://" ++ rest.
Proof.
  intros Hs. destruct https_among as (_ & Hn & Hne & _ & Hp).
  unfold urllib_parse.urlunsplit. rewrite Hs, Hn, Hne. cbn [andb].
  set (u1 := if _ : bool then _ else urllib_parse.s_path r).
  assert (exists r1, u1 = txt "//" ++ r1) as [r1 ->].
  { subst u1. destruct (nonempty (urllib_parse.s_netloc r)); cbn [orb].
    - eauto.
    - destruct (starts_with (txt "//") (urllib_parse.s_path r)) eqn:E;
        cbn [negb]; [now apply starts_with_prefix|eauto]. }
  rewrite Hp.
  destruct (nonempty (urllib_parse.s_query r)),
           (nonempty (urllib_parse.s_fragment r));
    rewrite <- ?app_assoc; eauto.
Qed.

Lemma urlunparse_https (r : urllib_parse.ParseResult) :
  urllib_parse.scheme r = txt "https" ->
  exists rest, urllib_parse.urlunparse r = txt "https://" ++ rest.
Proof. intros Hs. unfold urllib_parse.urlunparse. now apply urlunsplit_https. Qed.

(** [urljoin] on the site's origin: a reference with another scheme comes
    back as it is, any other is put together again with the scheme
    [https]. *)
Lemma urljoin_SITE (href : pystr) :
  href <> [] ->
  (reference_scheme href <> txt "https" -> urllib_parse.urljoin SITE href = href)
  /\ (reference_scheme href = txt "https" ->
      exists rest, urllib_parse.urljoin SITE href = txt "https://" ++ rest).
Proof.
  intros Hne. destruct https_among as (Hr & Hn & _ & Hs & _).
  unfold urllib_parse.urljoin, reference_scheme. rewrite Hs. cbn [negb].
  destruct href as [|c href]; [contradiction|]. cbn [nonempty negb].
  rewrite urlparse_SITE. cbn [urllib_parse.scheme urllib_parse.netloc
    urllib_parse.path urllib_parse.params urllib_parse.query].
  set (u := urllib_parse.urlparse (c :: href) (txt "https")).
  case_bool_decide as E; cbn [negb orb].
  - split; [contradiction|]. intros _. rewrite E, Hr, Hn. cbn [negb andb].
    destruct (nonempty (urllib_parse.netloc u));
      [apply urlunparse_https; exact E|].
    destruct (negb (nonempty (urllib_parse.path u))
              && negb (nonempty (urllib_parse.params u)));
      apply urlunparse_https; reflexivity.
  - split; [reflexivity|]. intros E'. contradiction.
Qed.

(** A reference that begins with a slash carries no scheme of its own. *)
Lemma reference_scheme_of_path (rest : pystr) :
  reference_scheme (47 :: rest) = txt "https".
Proof.
  unfold reference_scheme, urllib_parse.urlparse.
  destruct (if _ : bool then _ else _) as [url params].
  cbn [urllib_parse.scheme]. unfold urllib_parse.urlsplit.
  cbn [lstrip_chars]. change (urllib_parse._WHATWG_C0_CONTROL_OR_SPACE 47) with false.
  cbv iota.
  replace (fold_left (fun u b => remove_char b u)
                     urllib_parse._UNSAFE_URL_BYTES_TO_REMOVE (47 :: rest))
    with (47 :: fold_left (fun u b => remove_char b u)
                          urllib_parse._UNSAFE_URL_BYTES_TO_REMOVE rest)
    by reflexivity.
  set (url1 := fold_left _ _ rest).
  replace (fold_left (fun s b => remove_char b s)
             urllib_parse._UNSAFE_URL_BYTES_TO_REMOVE
             (strip_chars urllib_parse._WHATWG_C0_CONTROL_OR_SPACE (txt "https")))
    with (txt "https") by (vm_compute; reflexivity).
  assert (urllib_parse.split_scheme (47 :: url1) (txt "https")
          = (txt "https", 47 :: url1)) as ->.
  { unfold urllib_parse.split_scheme.
    destruct (find_char 58 (47 :: url1)) as [[|i]|]; reflexivity. }
  repeat match goal with
         | |- context [let '(_, _) := ?x in _] => destruct x
         end.
  reflexivity.
Qed.

(* ===================================================================== *)
(** ** The properties of the script *)
(* ===================================================================== *)

(** C1. The rows [scrape] returns have pairwise different URLs.  They are
    the rows gathered from the pages the run completed, and the row kept for
    a URL is the first with that URL among all the records those pages (and
    any later page) produced, in page order.  Within one page,
    [extract_listings] returns pairwise different URLs too, each record
    built from the first anchor, in document order, that resolves to its
    URL. *)
Theorem scrape_urls_unique_first_wins `{P : Platform}
    (max_pages : Z) (delay_sec : Q) (w : world) :
  let rows := (scrape max_pages delay_sec w).1 in
  NoDup (map url rows)
  /\ (exists j,
        completes (Z.to_nat max_pages) j /\ rows = accumulated j
        /\ forall r k, In r rows -> (j <= k)%nat ->
             List.find (fun x => bool_decide (url x = url r)) (produced k)
             = Some r)
  /\ (forall html,
        NoDup (map url (extract_listings html))
        /\ forall r, In r (extract_listings html) ->
             exists a, first_card (cards html) (url r) = Some a
                       /\ r = make_listing a (url r)).
Proof.
  cbv zeta.
  destruct (scrape_run max_pages delay_sec w) as (j & w' & -> & Hc & _).
  simpl. split; [apply accumulated_NoDup|]. split.
  - exists j. split; [assumption|]. split; [reflexivity|].
    intros r k Hr Hk. now apply accumulated_first_later with j.
  - intros html. split; [apply extract_listings_NoDup|].
    apply extract_listings_first.
Qed.

(** C2 (as the code has it). Every record of [extract_listings] is built from
    a selected anchor that has a non-empty [href]; its [url] is that [href]
    resolved against the site's origin by the standard library's [urljoin],
    and it is never empty.  When the reference carries no scheme of its own,
    or the scheme [https], the [url] begins with [https://] and so is
    absolute; every [href] that begins with a slash is such a reference.
    When the reference carries another scheme, the [url] is the [href] as it
    is written.  The rows of [scrape] are records of [extract_listings], so
    each of them has a [url] of one of the two kinds.  An anchor without
    [href] leaves the loop's state as it is, so the result is the same with
    such anchors left out. *)
Theorem listing_url_resolved `{P : Platform} :
  urljoin = urllib_parse.urljoin ->
  (forall html r, In r (extract_listings html) ->
     exists a href,
       In a (cards html) /\ tag_get a (txt "href") = Some href /\ href <> []
       /\ url r = urllib_parse.urljoin SITE href
       /\ url r <> []
       /\ (reference_scheme href = txt "https" ->
           starts_with (txt "https://") (url r) = true
           /\ is_absolute (url r) = true)
       /\ (reference_scheme href <> txt "https" -> url r = href))
  /\ (forall href,
        starts_with (txt "/") href = true -> reference_scheme href = txt "https")
  /\ (forall max_pages delay_sec w r,
        In r (scrape max_pages delay_sec w).1 ->
        url r <> []
        /\ (starts_with (txt "https://") (url r) = true
            \/ exists href,
                 href <> [] /\ reference_scheme href <> txt "https"
                 /\ url r = href)
        /\ exists html, In r (extract_listings html))
  /\ (forall a st, tag_get a (txt "href") = None -> extract_step st a = st)
  /\ (forall html,
        extract_listings html
        = (fold_left extract_step (List.filter has_href (cards html)) ([], ∅)).1).
Proof.
  intros Hlib.
  assert (forall html r, In r (extract_listings html) ->
     exists a href,
       In a (cards html) /\ tag_get a (txt "href") = Some href /\ href <> []
       /\ url r = urllib_parse.urljoin SITE href
       /\ url r <> []
       /\ (reference_scheme href = txt "https" ->
           starts_with (txt "https://") (url r) = true
           /\ is_absolute (url r) = true)
       /\ (reference_scheme href <> txt "https" -> url r = href)) as Hpage.
  { intros html r Hr.
    destruct (extract_listings_first html r Hr) as (a & Ha & _).
    apply first_card_some in Ha as [Hin Hu]. unfold card_url in Hu.
    destruct (tag_get a (txt "href")) as [href|] eqn:Hh; [|discriminate].
    destruct (nonempty href) eqn:Hne; [|discriminate].
    injection Hu as Hu. rewrite Hlib in Hu.
    assert (href <> []) as Hne' by (intros ->; discriminate).
    destruct (urljoin_SITE href Hne') as [Hother Hsame].
    exists a, href. split; [assumption|]. split; [assumption|].
    split; [assumption|]. split; [now symmetry|]. rewrite <- Hu.
    split; [|split].
    - destruct (decide (reference_scheme href = txt "https")) as [E|E].
      + destruct (Hsame E) as [rest ->]. pose proof https_among as (_ & _ & _ & _ & Hp).
        rewrite Hp. discriminate.
      + now rewrite (Hother E).
    - intros E. destruct (Hsame E) as [rest ->].
      split; [apply starts_with_app|apply https_prefix_absolute].
    - exact Hother. }
  split; [exact Hpage|]. split; [|split; [|split]].
  - intros [|c href] Hs; [discriminate|]. cbn [starts_with] in Hs.
    apply andb_true_iff in Hs as [Hc _]. apply N.eqb_eq in Hc as <-.
    apply reference_scheme_of_path.
  - intros max_pages delay_sec w r.
    destruct (scrape_run max_pages delay_sec w) as (j & w' & -> & _).
    simpl. intros Hr. apply accumulated_In in Hr as (q & _ & Hr).
    destruct (Hpage _ r Hr) as (a & href & _ & _ & Hne & _ & Hu & Hsame & Hother).
    split; [assumption|]. split; [|unfold page_rows in Hr; eauto].
    destruct (decide (reference_scheme href = txt "https")) as [E|E].
    + left. now apply Hsame.
    + right. exists href. auto.
  - intros a st Hh. apply extract_step_skip. now apply no_href_skipped.
  - intros html. rewrite extract_fold_filter. reflexivity.
Qed.

(** On the page of links, served with the library's [urljoin], both records
    have a [url] of one of the two kinds. *)
Lemma listing_url_resolved_edge :
  (forall html r, In r (@extract_listings edge html) ->
     exists a href,
       In a (@cards edge html) /\ tag_get a (txt "href") = Some href
       /\ href <> []
       /\ url r = urllib_parse.urljoin SITE href
       /\ url r <> []
       /\ (reference_scheme href = txt "https" ->
           starts_with (txt "https://") (url r) = true
           /\ is_absolute (url r) = true)
       /\ (reference_scheme href <> txt "https" -> url r = href))
  /\ (forall href,
        starts_with (txt "/") href = true -> reference_scheme href = txt "https")
  /\ (forall max_pages delay_sec w r,
        In r (@scrape edge max_pages delay_sec w).1 ->
        url r <> []
        /\ (starts_with (txt "https://") (url r) = true
            \/ exists href,
                 href <> [] /\ reference_scheme href <> txt "https"
                 /\ url r = href)
        /\ exists html, In r (@extract_listings edge html))
  /\ (forall a st, tag_get a (txt "href") = None -> @extract_step edge st a = st)
  /\ (forall html,
        @extract_listings edge html
        = (fold_left (@extract_step edge)
                     (List.filter (@has_href edge) (@cards edge html)) ([], ∅)).1).
Proof.
  apply (@listing_url_resolved edge). reflexivity.
Defined.

(** C2 fails as worded: on the page of links the second anchor's [href] is
    " http://evil/item/1", with a space before the scheme.  [urljoin] reads
    the scheme [http] in it, which is not the site's, and returns the
    reference as it is; the record's [url] begins with a space and is not
    absolute. *)
Lemma listing_url_not_absolute :
  map url (@extract_listings edge links_html)
  = [txt "https://www.olx.in/item/1"; txt " http://evil/item/1"]
  /\ map url (@scrape edge 1 (9 # 5) fresh).1
     = [txt "https://www.olx.in/item/1"; txt " http://evil/item/1"]
  /\ reference_scheme (txt " http://evil/item/1") = txt "http"
  /\ is_absolute (txt " http://evil/item/1") = false.
Proof. vm_compute. repeat split; reflexivity. Qed.

(** C3 (as the code has it). When the context text of an anchor is [text],
    the [price_guess] of its record, when present, is a substring of [text]
    made of the sign ₹, at most one whitespace character, and a non-empty run
    of characters each of which is a decimal digit or a comma, in any
    arrangement; the run goes on as far as such characters go, and no such
    substring starts further left in [text].  It is absent exactly when
    [text] has no such substring. *)
Theorem price_guess_leftmost_amount_run `{P : Platform}
    (a : tag) (u text : pystr) :
  context_text a = Some text ->
  match price_guess (make_listing a u) with
  | Some p =>
    exists pre post,
      text = pre ++ p ++ post
      /\ price_shape isdecimal p
      /\ run_ends (amount_char isdecimal) post
      /\ (forall pre' p' post',
            text = pre' ++ p' ++ post' -> price_shape isdecimal p' ->
            (length pre <= length pre')%nat)
  | None =>
    forall pre p post, text = pre ++ p ++ post -> ~ price_shape isdecimal p
  end.
Proof.
  intros Hc. rewrite (price_guess_text a u text Hc).
  destruct (price_in text) as [p|] eqn:Hp.
  - now apply price_in_some.
  - now apply price_in_none.
Qed.

(** The first card of the example site: its context text and its price. *)
Lemma price_guess_leftmost_amount_run_demo :
  context_text first_anchor = Some (txt "Car Seat Covers ₹ 500")
  /\ match price_guess (@make_listing demo first_anchor []) with
     | Some p =>
       exists pre post,
         txt "Car Seat Covers ₹ 500" = pre ++ p ++ post
         /\ price_shape ascii_digit p
         /\ run_ends (amount_char ascii_digit) post
         /\ (forall pre' p' post',
               txt "Car Seat Covers ₹ 500" = pre' ++ p' ++ post' ->
               price_shape ascii_digit p' ->
               (length pre <= length pre')%nat)
     | None =>
       forall pre p post,
         txt "Car Seat Covers ₹ 500" = pre ++ p ++ post ->
         ~ price_shape ascii_digit p
     end.
Proof.
  split; [vm_compute; reflexivity|].
  apply (@price_guess_leftmost_amount_run demo first_anchor []
           (txt "Car Seat Covers ₹ 500")).
  vm_compute. reflexivity.
Defined.

(** C3 fails as worded: on the first page of the example site the second
    record's price ends with a comma, and a text "₹, call" gives a price
    without any digit; neither is "digit groups with optional comma
    separators". *)
Lemma price_guess_is_not_digit_groups :
  map price_guess (@extract_listings demo page_one_html)
  = [Some (txt "₹ 500"); Some (txt "₹ 1,200,")]
  /\ claimed_price_format ascii_digit (txt "₹ 1,200,") = false
  /\ @price_in demo (txt "₹, call") = Some (txt "₹,")
  /\ claimed_price_format ascii_digit (txt "₹,") = false.
Proof. vm_compute. repeat split; reflexivity. Qed.

(** C4 (as the code has it). When the context text of an anchor is [text],
    the [location_guess] of its record, when present, is the capture of the
    leftmost substring of [text] made of the letters [in] or [at] or a
    bullet, wherever they stand (also at the end of a longer word), one or
    more whitespace characters, and the capture: a capital letter followed
    by two or more characters of [[A-Za-z .,-]], as many as there are.  The
    guess is the capture without the whitespace at its end, and it starts
    with the capital letter.  It is absent exactly when [text] has no such
    substring.  For "Used car cover for sale in Mumbai ₹ 1,200" it is
    "Mumbai". *)
Theorem location_guess_leftmost_capture `{P : Platform}
    (a : tag) (u text : pystr) :
  context_text a = Some text ->
  match location_guess (make_listing a u) with
  | Some loc =>
    exists pre m grp post sp,
      text = pre ++ m ++ post
      /\ location_shape m grp
      /\ run_ends place_char post
      /\ loc = strip grp
      /\ grp = loc ++ sp /\ Forall (fun c => isspace c = true) sp
      /\ run_ends isspace (rev loc)
      /\ (exists c rest, loc = c :: rest /\ upper c = true)
      /\ (forall pre' m' grp' post',
            text = pre' ++ m' ++ post' -> location_shape m' grp' ->
            (length pre <= length pre')%nat)
  | None =>
    forall pre m grp post, text = pre ++ m ++ post -> ~ location_shape m grp
  end
  /\ (text = txt "Used car cover for sale in Mumbai ₹ 1,200" ->
      location_guess (make_listing a u) = Some (txt "Mumbai")).
Proof.
  intros Hc. rewrite (location_guess_text a u text Hc). split.
  - destruct (location_in text) as [loc|] eqn:Hl; [|now apply location_in_none].
    apply location_in_some in Hl as (pre & m & grp & post & Ht & Hs & He & -> & Hleft).
    pose proof Hs as (conn & ws & c & tail & _ & Hg & _ & _ & _ & Hup & _).
    subst grp.
    destruct (strip_capture c tail Hup) as (sp & Hsp & Hall & Hend & rest & Hr).
    exists pre, m, (c :: tail), post, sp. repeat split; auto.
    exists c, rest. auto.
  - intros ->. vm_compute. reflexivity.
Qed.

(** The third card of the example site has the context text of the
    specification's scenario. *)
Lemma location_guess_leftmost_capture_demo :
  context_text third_anchor
  = Some (txt "Used car cover for sale in Mumbai ₹ 1,200")
  /\ location_guess (@make_listing demo third_anchor []) = Some (txt "Mumbai").
Proof.
  split; [vm_compute; reflexivity|].
  apply (@location_guess_leftmost_capture demo third_anchor []
           (txt "Used car cover for sale in Mumbai ₹ 1,200")).
  - vm_compute. reflexivity.
  - reflexivity.
Defined.

(** C4 fails as worded: in "Car Seat Covers ₹ 500" neither [in] nor [at]
    stands as a word and there is no bullet, so the wording gives no
    location; the script takes the [at] that ends "Seat" and answers
    "Covers". *)
Lemma location_guess_connector_inside_word :
  map location_guess (@extract_listings demo page_one_html)
  = [Some (txt "Covers"); None]
  /\ map snippet (@extract_listings demo page_one_html)
     = [Some (txt "Car Seat Covers ₹ 500");
        Some (txt "Car body cover ₹ 1,200, negotiable")]
  /\ claimed_location (txt "Car Seat Covers ₹ 500") = None.
Proof. vm_compute. repeat split; reflexivity. Qed.



(** C6. The [snippet] of a record is taken from the context text alone: it
    is absent when the walk gives no tag or the text is empty, and otherwise
    it is the first 300 characters of the text (the whole text when it is
    shorter), so at most 300 characters long. *)
Theorem snippet_is_first_300 `{P : Platform} (a : tag) (u : pystr) :
  snippet (make_listing a u) = (context_fields (bubble_up 3 (Some a))).2
  /\ forall parent : option tag,
       match parent with
       | Some t =>
         let text := get_text_strip (txt " ") (tag_node t) in
         (text = [] -> (context_fields parent).2 = None)
         /\ (forall s, (context_fields parent).2 = Some s ->
               s = take 300 text /\ (length s <= 300)%nat /\ text <> [])
       | None => (context_fields parent).2 = None
       end.
Proof.
  split.
  - now rewrite <- (make_listing_fields a u).
  - intros [t|]; [|reflexivity]. cbv zeta. unfold context_fields. cbn [snd].
    destruct (get_text_strip (txt " ") (tag_node t)) as [|c text] eqn:E;
      cbn [nonempty].
    + split; [reflexivity|]. discriminate.
    + split; [discriminate|]. intros s [= <-].
      split; [reflexivity|]. split; [|discriminate].
      cbn [length]. rewrite length_take. lia.
Qed.

(** C7. [scrape] returns exactly the rows gathered from the pages it
    completed, [j] of them, whatever stopped it: the page budget was used up,
    or page [j+1] gave no usable body, or it gave no new row; and it sends a
    request for no page after [j+1].  When the fetch of a page [p] within the
    budget fails, [j < p] and the rows are those of a run whose budget is
    [p-1]; if every page before [p] contributed, [j = p-1]. *)
Theorem scrape_returns_accumulated `{P : Platform}
    (max_pages : Z) (delay_sec : Q) (w : world) :
  exists j w',
    scrape max_pages delay_sec w = (accumulated j, w')
    /\ completes (Z.to_nat max_pages) j
    /\ (j = Z.to_nat max_pages
        \/ no_html (fetched (next_page_url (Z.of_nat (S j)))) = true
        \/ new_rows_of (accumulated j) (page_rows (S j)) = [])
    /\ sent w'
       = sent w ++ map page_request (seq 1 (Nat.min (S j) (Z.to_nat max_pages)))
    /\ forall p, (1 <= p <= Z.to_nat max_pages)%nat ->
         fetched (next_page_url (Z.of_nat p)) = None ->
         (j < p)%nat
         /\ accumulated j = (scrape (Z.of_nat p - 1) delay_sec w).1
         /\ ((forall q, (1 <= q < p)%nat -> contributes q) -> j = Nat.pred p).
Proof.
  destruct (scrape_run max_pages delay_sec w)
    as (j & w' & Hrun & Hc & Hsent & _).
  exists j, w'. split; [assumption|]. split; [assumption|]. split.
  { destruct Hc as (_ & _ & [->|Hn]); [now left|right].
    now apply not_contributes. }
  split; [assumption|].
  intros p Hp Hf.
  assert (~ contributes p) as Hnc
    by now apply no_html_not_contributes, fetched_None_no_html.
  assert (j < p)%nat as Hlt.
  { destruct Hc as (_ & Hall & _).
    destruct (decide (j < p)%nat); [assumption|]. exfalso. apply Hnc, Hall. lia. }
  split; [assumption|]. split.
  - pose proof (scrape_rows_cut max_pages p delay_sec w delay_sec w Hp Hnc) as E.
    rewrite Hrun in E. exact E.
  - intros Hall. destruct Hc as (_ & _ & [->|Hn]); [lia|].
    destruct (decide (S j = p)) as [<-|Hne]; [reflexivity|].
    exfalso. apply Hn, Hall. lia.
Qed.

(** The line printed before the first page is fetched. *)
Lemma fetching_page_one :
  txt "[info] Fetching page " ++ str_of_int (Z.of_nat 1) ++ txt ": " ++ BASE_URL
  = txt "[info] Fetching page 1: https://www.olx.in/items/q-car-cover".
Proof. vm_compute. reflexivity. Qed.

(** C8. When the fetch of page 1 fails and the budget allows a page, [scrape]
    sends that one request, prints that it fetches page 1 and that it stops,
    and returns no row; [save_csv] on no row prints its notice and leaves
    every file as it was. *)
Theorem first_page_failure_writes_nothing `{P : Platform}
    (max_pages : Z) (delay_sec : Q) (w : world) (path : pystr) :
  (1 <= max_pages)%Z -> fetched BASE_URL = None ->
  let '(rows, w1) := scrape max_pages delay_sec w in
  let '(_, w2) := save_csv rows path w1 in
  rows = []
  /\ sent w1 = sent w ++ [request_for BASE_URL]
  /\ stdout w1
     = stdout w
       ++ [txt "[info] Fetching page 1: https://www.olx.in/items/q-car-cover";
           txt "[warn] No HTML fetched, stopping."]
  /\ stderr w1 = stderr w ++ fetch_log BASE_URL
  /\ stdout w2 = stdout w1 ++ [txt "[info] No rows to save."]
  /\ files w2 = files w
  /\ files w2 !! path = files w !! path.
Proof.
  intros Hmax Hf. unfold scrape. rewrite py_range_pages.
  destruct (Z.to_nat max_pages) as [|n] eqn:En; [lia|].
  cbn [seq map].
  rewrite scrape_loop_no_html
    by (change (next_page_url (Z.of_nat 1)) with BASE_URL; now rewrite Hf).
  cbv beta iota. unfold save_csv, print. cbv beta iota.
  unfold stopped_world. cbn [stdout stderr files sent slept].
  change (next_page_url (Z.of_nat 1)) with BASE_URL.
  rewrite fetching_page_one.
  repeat split; reflexivity.
Qed.

(** The example site when it answers 404: a run of the whole script. *)
Lemma first_page_failure_writes_nothing_demo :
  (1 <= 5)%Z /\ @fetched demo_down BASE_URL = None
  /\ let '(rows, w1) := @scrape demo_down 5 (9 # 5) fresh in
     let '(_, w2) := save_csv rows OUTPUT_CSV w1 in
     rows = []
     /\ sent w1 = sent fresh ++ [request_for BASE_URL]
     /\ stdout w1
        = stdout fresh
          ++ [txt "[info] Fetching page 1: https://www.olx.in/items/q-car-cover";
              txt "[warn] No HTML fetched, stopping."]
     /\ stderr w1 = stderr fresh ++ @fetch_log demo_down BASE_URL
     /\ stdout w2 = stdout w1 ++ [txt "[info] No rows to save."]
     /\ files w2 = files fresh
     /\ files w2 !! OUTPUT_CSV = files fresh !! OUTPUT_CSV.
Proof.
  split; [lia|]. split; [vm_compute; reflexivity|].
  apply (@first_page_failure_writes_nothing demo_down 5 (9 # 5) fresh OUTPUT_CSV).
  - lia.
  - vm_compute. reflexivity.
Defined.

(** C10. When the answer to the request for a page has status 200 and an
    empty body, the loop prints that it stops, returns the rows it had,
    visits no further page, and [fetch_page] prints nothing to [stderr];
    the rows, the console output, the requests sent, the files and the
    pauses are those of a run in which the same request fails.  Inside
    [scrape], the rows are then those of a run whose budget ends on the page
    before. *)
Theorem empty_body_stops_like_failure `{P : Platform}
    (p : nat) (rest : list Z) (delay_sec : Q)
    (all_rows : list listing) (seen_urls : gset pystr) (w : world) :
  session_get (page_request p) = Response 200 [] ->
  let '(rows, w') :=
    scrape_loop (Z.of_nat p :: rest) delay_sec all_rows seen_urls w in
  rows = all_rows
  /\ stdout w'
     = stdout w
       ++ [txt "[info] Fetching page " ++ str_of_int (Z.of_nat p) ++ txt ": "
           ++ next_page_url (Z.of_nat p);
           txt "[warn] No HTML fetched, stopping."]
  /\ stderr w' = stderr w
  /\ sent w' = sent w ++ [page_request p]
  /\ files w' = files w /\ slept w' = slept w
  /\ (forall P' : Platform,
        @fetched P' (next_page_url (Z.of_nat p)) = None ->
        let '(rows', w'') :=
          @scrape_loop P' (Z.of_nat p :: rest) delay_sec all_rows seen_urls w in
        rows' = rows /\ stdout w'' = stdout w' /\ sent w'' = sent w'
        /\ files w'' = files w' /\ slept w'' = slept w')
  /\ (forall max_pages w0,
        (1 <= p <= Z.to_nat max_pages)%nat ->
        (scrape max_pages delay_sec w0).1
        = (scrape (Z.of_nat p - 1) delay_sec w0).1).
Proof.
  intros Hget.
  assert (fetched (next_page_url (Z.of_nat p)) = Some []) as Hf
    by (unfold fetched; fold (page_request p); now rewrite Hget).
  assert (no_html (fetched (next_page_url (Z.of_nat p))) = true) as Hn
    by now rewrite Hf.
  assert (fetch_log (next_page_url (Z.of_nat p)) = []) as Hlog
    by (unfold fetch_log; fold (page_request p); now rewrite Hget).
  rewrite scrape_loop_no_html by assumption.
  unfold stopped_world; cbn [stdout stderr sent files slept].
  rewrite Hlog, app_nil_r.
  split; [reflexivity|]. split; [reflexivity|]. split; [reflexivity|].
  split; [reflexivity|]. split; [reflexivity|]. split; [reflexivity|]. split.
  - intros P' Hf'.
    rewrite (@scrape_loop_no_html P') by now rewrite Hf'.
    unfold stopped_world; cbn [stdout stderr sent files slept].
    repeat split; reflexivity.
  - intros max_pages w0 Hp. apply scrape_rows_cut; [assumption|].
    now apply no_html_not_contributes.
Qed.

(** The third page of the example site has status 200 and an empty body. *)
Lemma empty_body_stops_like_failure_demo :
  @session_get demo (page_request 3) = Response 200 []
  /\ (@scrape demo 5 (9 # 5) fresh).1 = (@scrape demo 2 (9 # 5) fresh).1
  /\ length (@scrape demo 5 (9 # 5) fresh).1 = 3%nat.
Proof.
  assert (@session_get demo (page_request 3) = Response 200 []) as Hget
    by (vm_compute; reflexivity).
  split; [exact Hget|]. split; [|vm_compute; reflexivity].
  pose proof (@empty_body_stops_like_failure demo 3 [] (9 # 5) [] ∅ fresh Hget)
    as H.
  destruct (@scrape_loop demo (Z.of_nat 3 :: []) (9 # 5) [] ∅ fresh)
    as [rows w'].
  destruct H as (_ & _ & _ & _ & _ & _ & _ & Hcut).
  apply (Hcut 5%Z fresh). vm_compute. lia.
Defined.
(* ===================================================================== *)
(** ** First occurrences *)
(* ===================================================================== *)

Section KeepFirst.

Lemma filter_filter_and {A} (f g : A -> bool) (l : list A) :
  List.filter f (List.filter g l) = List.filter (fun x => g x && f x) l.
Proof.
  induction l as [|a l IH]; simpl; [reflexivity|].
  destruct (g a); simpl; [destruct (f a); now rewrite IH|apply IH].
Qed.

Lemma filter_not_in_nil (l : list pystr) :
  List.filter (fun y => negb (bool_decide (y ∈ ([] : list pystr)))) l = l.
Proof.
  induction l as [|a l IH]; cbn [List.filter]; [reflexivity|].
  rewrite bool_decide_eq_false_2 by apply not_elem_of_nil.
  cbn [negb]. now rewrite IH.
Qed.

Lemma keep_first_In (l : list pystr) (x : pystr) : In x (keep_first l) <-> In x l.
Proof.
  induction l as [|a l IH]; simpl; [reflexivity|].
  rewrite List.filter_In, IH, negb_true_iff, bool_decide_eq_false.
  destruct (decide (x = a)) as [->|Hne]; [tauto|]. intuition congruence.
Qed.

Lemma NoDup_filter_list {A} (f : A -> bool) (l : list A) :
  NoDup l -> NoDup (List.filter f l).
Proof.
  induction 1 as [|a l Hn Hd IH]; simpl; [constructor|].
  destruct (f a); auto. constructor; auto.
  rewrite list_elem_of_In, List.filter_In, <- list_elem_of_In. tauto.
Qed.

Lemma keep_first_NoDup (l : list pystr) : NoDup (keep_first l).
Proof.
  induction l as [|a l IH]; simpl; constructor.
  - rewrite list_elem_of_In, List.filter_In, negb_true_iff, bool_decide_eq_false.
    tauto.
  - now apply NoDup_filter_list.
Qed.

Lemma sublist_filter_list {A} (f : A -> bool) (l : list A) :
  sublist (List.filter f l) l.
Proof.
  induction l as [|a l IH]; simpl; [constructor|].
  destruct (f a); [now apply sublist_skip|now apply sublist_cons].
Qed.

Lemma keep_first_sublist (l : list pystr) : sublist (keep_first l) l.
Proof.
  induction l as [|a l IH]; simpl; [constructor|].
  apply sublist_skip. etransitivity; [apply sublist_filter_list|exact IH].
Qed.

(** The first occurrences of [l ++ k]: those of [l], then those of [k] that
    are not in [l]. *)
Lemma keep_first_app (l k : list pystr) :
  keep_first (l ++ k)
  = keep_first l
    ++ List.filter (fun y => negb (bool_decide (y ∈ l))) (keep_first k).
Proof.
  induction l as [|a l IH]; simpl.
  - now rewrite filter_not_in_nil.
  - f_equal. rewrite IH, List.filter_app, filter_filter_and. f_equal.
    apply List.filter_ext. intros y.
    repeat case_bool_decide; simpl; try reflexivity; exfalso;
      rewrite elem_of_cons in *; tauto.
Qed.
End KeepFirst.

(* ===================================================================== *)
(** ** The order of the records *)
(* ===================================================================== *)

Section OrderFacts.
Context {P : Platform}.

Lemma omap_card_url_cons a l :
  omap card_url (a :: l)
  = match card_url a with
    | Some u => u :: omap card_url l
    | None => omap card_url l
    end.
Proof. reflexivity. Qed.

(** The URLs of the records after the loop, from those before it. *)
Lemma extract_fold_urls (l : list tag) :
  forall (results : list listing) (seen : gset pystr),
    (forall u, u ∈ seen <-> In u (map url results)) ->
    map url (fold_left extract_step l (results, seen)).1
    = map url results
      ++ List.filter (fun y => negb (bool_decide (y ∈ map url results)))
                     (keep_first (omap card_url l)).
Proof.
  induction l as [|a l IH]; intros results seen Hseen; cbn [fold_left].
  - simpl. now rewrite app_nil_r.
  - rewrite extract_step_card_url, omap_card_url_cons.
    destruct (card_url a) as [u|] eqn:Hu; [|now apply IH].
    destruct (bool_decide (u ∈ seen)) eqn:Hd.
    + apply bool_decide_eq_true in Hd. rewrite (IH results seen Hseen).
      f_equal. cbn [keep_first List.filter].
      rewrite bool_decide_eq_true_2
        by (apply list_elem_of_In; now apply Hseen).
      cbn [negb]. rewrite filter_filter_and. apply List.filter_ext.
      intros y. repeat case_bool_decide; simpl; try reflexivity.
      exfalso. subst y. apply Hseen in Hd. apply list_elem_of_In in Hd.
      contradiction.
    + apply bool_decide_eq_false in Hd.
      rewrite (IH (results ++ [make_listing a u]) (seen ∪ {[u]})).
      2:{ intros u'. rewrite map_app, in_app_iff, elem_of_union,
            elem_of_singleton. simpl. rewrite make_listing_url, Hseen.
          intuition. }
      rewrite map_app. simpl map. rewrite make_listing_url, <- app_assoc.
      f_equal. cbn [keep_first List.filter app].
      rewrite bool_decide_eq_false_2
        by (rewrite list_elem_of_In, <- Hseen; assumption).
      cbn [negb]. f_equal. rewrite filter_filter_and.
      apply List.filter_ext. intros y.
      repeat case_bool_decide; simpl; try reflexivity; exfalso;
        rewrite elem_of_app, list_elem_of_singleton in *; tauto.
Qed.

Lemma extract_listings_urls html :
  map url (extract_listings html) = keep_first (card_urls html).
Proof.
  rewrite extract_listings_eq, (extract_fold_urls (cards html) [] ∅).
  - simpl. apply filter_not_in_nil.
  - intros u. simpl. set_solver.
Qed.
End OrderFacts.

Section GlobalOrder.
Context {P : Platform}.

Lemma map_url_new_rows_of acc rows :
  map url (new_rows_of acc rows)
  = List.filter (fun y => negb (bool_decide (y ∈ map url acc))) (map url rows).
Proof.
  unfold new_rows_of. induction rows as [|r rows IH]; cbn [List.filter map];
    [reflexivity|].
  destruct (negb (bool_decide (url r ∈ map url acc))); cbn [map];
    now rewrite IH.
Qed.

Lemma page_rows_urls p : map url (page_rows p) = keep_first (page_card_urls p).
Proof. apply extract_listings_urls. Qed.

(** The two tests, within a page and across pages, amount to one: the rows
    of pages [1..j] carry the first occurrences of the URLs of all their
    anchors. *)
Lemma accumulated_urls j :
  map url (accumulated j) = keep_first (flat_map page_card_urls (seq 1 j)).
Proof.
  induction j as [|j IH]; [reflexivity|].
  cbn [accumulated]. rewrite map_app, map_url_new_rows_of, page_rows_urls.
  rewrite seq_S, flat_map_app, keep_first_app. cbn [flat_map].
  rewrite app_nil_r, <- IH. f_equal. apply List.filter_ext. intros y.
  f_equal. apply bool_decide_ext.
  rewrite !list_elem_of_In, IH. apply keep_first_In.
Qed.

Lemma accumulated_prefix j j' :
  (j <= j')%nat -> accumulated j `prefix_of` accumulated j'.
Proof.
  induction 1 as [|j' Hle IH]; [reflexivity|].
  etransitivity; [exact IH|]. cbn [accumulated]. now apply prefix_app_r.
Qed.

Lemma completes_mono n n' j j' :
  completes n j -> completes n' j' -> (n <= n')%nat -> (j <= j')%nat.
Proof.
  intros (Hj & Hall & Hstop) (Hj' & Hall' & Hstop') Hn.
  destruct (decide (j <= j')%nat) as [|Hgt]; [assumption|exfalso].
  destruct Hstop' as [->|Hstop']; [lia|]. apply Hstop', Hall. lia.
Qed.
End GlobalOrder.

(* ===================================================================== *)
(** ** What a run does to the world *)
(* ===================================================================== *)

Section EffectFacts.
Context {P : Platform}.

Lemma fetch_log_ok u : no_html (fetched u) = false -> fetch_log u = [].
Proof.
  unfold fetched, fetch_log.
  destruct (session_get (request_for u)) as [sc text|e]; [|discriminate].
  destruct (sc =? 200)%Z; [reflexivity|discriminate].
Qed.

Lemma fetch_log_length u : (length (fetch_log u) <= 1)%nat.
Proof.
  unfold fetch_log.
  destruct (session_get (request_for u)) as [sc text|e]; [|simpl; lia].
  destruct (sc =? 200)%Z; simpl; lia.
Qed.

(** The loop started on pages [k+1 .. k+n] with the rows of pages [1..k]:
    its rows and every part of the world it leaves. *)
Lemma scrape_loop_effects n : forall k d w,
  exists j w',
    scrape_loop (map Z.of_nat (seq (S k) n)) d (accumulated k)
                (list_to_set (map url (accumulated k))) w
    = (accumulated j, w')
    /\ (k <= j <= k + n)%nat
    /\ (forall q, (k < q <= j)%nat -> contributes q)
    /\ (j = (k + n)%nat \/ ~ contributes (S j))
    /\ files w' = files w
    /\ slept w' = slept w ++ repeat d (j - k)
    /\ sent w' = sent w ++ map page_request (seq (S k) (Nat.min (S j - k) n))
    /\ stderr w'
       = stderr w
         ++ (if decide (j = (k + n)%nat) then []
             else fetch_log (next_page_url (Z.of_nat (S j))))
    /\ length (stdout w')
       = (length (stdout w) + Nat.min (S j - k) n
          + if decide (j = (k + n)%nat) then 0 else 1)%nat.
Proof.
  induction n as [|n IH]; intros k d w.
  - exists k, w. cbn [seq map scrape_loop]. unfold ret.
    rewrite Nat.min_0_r, Nat.sub_diag, Nat.add_0_r.
    rewrite !decide_True by reflexivity. cbn [repeat map seq].
    rewrite !app_nil_r.
    split; [reflexivity|]. split; [lia|]. split; [intros q Hq; lia|].
    split; [now left|]. repeat split; auto; lia.
  - cbn [seq map].
    destruct (no_html (fetched (next_page_url (Z.of_nat (S k))))) eqn:Hf.
    + rewrite scrape_loop_no_html by assumption.
      exists k, (stopped_world (Z.of_nat (S k)) w).
      replace (Nat.min (S k - k) (S n)) with 1%nat by lia.
      rewrite Nat.sub_diag, !decide_False by lia. cbn [repeat].
      rewrite app_nil_r.
      split; [reflexivity|]. split; [lia|]. split; [intros q Hq; lia|].
      split; [right; now apply no_html_not_contributes|].
      split; [reflexivity|]. split; [reflexivity|]. split; [reflexivity|].
      split; [reflexivity|].
      cbn [stopped_world no_new_world stdout]. rewrite length_app.
      cbn [length]. lia.
    + rewrite scrape_loop_html by assumption. cbv zeta.
      rewrite new_rows_of_seen. fold (page_rows (S k)).
      destruct (new_rows_of (accumulated k) (page_rows (S k)))
        as [|r new_rows] eqn:Hn.
      * exists k, (no_new_world (Z.of_nat (S k)) w).
        replace (Nat.min (S k - k) (S n)) with 1%nat by lia.
        rewrite Nat.sub_diag, !decide_False by lia. cbn [repeat].
        rewrite app_nil_r.
        split; [reflexivity|]. split; [lia|]. split; [intros q Hq; lia|].
        split; [right; rewrite contributes_S; intros [_ Hc]; congruence|].
        split; [reflexivity|]. split; [reflexivity|]. split; [reflexivity|].
        split; [reflexivity|].
      cbn [stopped_world no_new_world stdout]. rewrite length_app.
      cbn [length]. lia.
      * assert (contributes (S k)) as Hck.
        { rewrite contributes_S, Hn. split; [assumption|discriminate]. }
        replace (list_to_set (map url (accumulated k))
                 ∪ list_to_set (map url (r :: new_rows)) : gset pystr)
          with (list_to_set (map url (accumulated (S k))) : gset pystr).
        2:{ cbn [accumulated]. rewrite Hn, map_app. apply list_to_set_app_L. }
        replace (accumulated k ++ r :: new_rows) with (accumulated (S k))
          by (cbn [accumulated]; now rewrite Hn).
        destruct (IH (S k) d (next_world (Z.of_nat (S k)) d w))
          as (j & w' & Hrun & Hj & Hall & Hstop & Hfiles & Hslept & Hsent
              & Herr & Hout).
        exists j, w'. rewrite Hrun.
        split; [reflexivity|]. split; [lia|]. split.
        { intros q Hq. destruct (decide (q = S k)) as [->|Hne]; auto.
          apply Hall. lia. }
        split. { destruct Hstop as [->|Hstop]; [left; lia|now right]. }
        split; [exact Hfiles|]. split.
        { rewrite Hslept. cbn [next_world slept]. rewrite <- app_assoc.
          f_equal. replace (j - k)%nat with (S (j - S k)) by lia.
          reflexivity. }
        split.
        { rewrite Hsent. cbn [next_world sent]. rewrite <- app_assoc. f_equal.
          replace (Nat.min (S j - k) (S n)) with (S (Nat.min (S j - S k) n))
            by lia.
          reflexivity. }
        split.
        { rewrite Herr. cbn [next_world stderr].
          rewrite (fetch_log_ok _ Hf), app_nil_r. f_equal.
          destruct (decide (j = (S k + n)%nat)), (decide (j = (k + S n)%nat));
            try reflexivity; lia. }
        rewrite Hout. cbn [next_world stdout]. rewrite length_app. cbn [length].
        destruct (decide (j = (S k + n)%nat)), (decide (j = (k + S n)%nat));
          lia.
Qed.
End EffectFacts.

(* ===================================================================== *)
(** ** The rows of the written file *)
(* ===================================================================== *)

Section CsvFacts.
Context {P : Platform}.

Lemma cell_inj (x y : option pystr) :
  x <> Some [] -> y <> Some [] -> cell x = cell y -> x = y.
Proof.
  destruct x as [[|c s]|], y as [[|c' s']|]; simpl; intros Hx Hy E;
    congruence.
Qed.

Lemma csv_row_inj r1 r2 :
  no_empty_field r1 -> no_empty_field r2 -> csv_row r1 = csv_row r2 -> r1 = r2.
Proof.
  intros (Ht1 & Hp1 & Hl1 & Hs1) (Ht2 & Hp2 & Hl2 & Hs2).
  unfold csv_row. intros [= Et Eu Ep El Es].
  apply cell_inj in Et, Ep, El, Es; try assumption.
  destruct r1, r2; simpl in *. congruence.
Qed.

Lemma price_in_nonempty text : price_in text <> Some [].
Proof.
  intros H. apply price_in_some in H as (pre & post & _ & Hs & _).
  destruct Hs as (ws & ds & Hp & _). discriminate.
Qed.

Lemma location_in_nonempty text : location_in text <> Some [].
Proof.
  intros H.
  apply location_in_some in H as (pre & m & grp & post & _ & Hs & _ & Hl & _).
  destruct Hs as (conn & ws & c & tail & _ & -> & _ & _ & _ & Hup & _).
  destruct (strip_capture c tail Hup) as (sp & _ & _ & _ & rest & Hr).
  congruence.
Qed.

Lemma make_listing_no_empty a u : no_empty_field (make_listing a u).
Proof.
  pose proof (make_listing_fields a u) as E.
  destruct (bubble_up_spec 3 a) as (anc & Hb & _). rewrite Hb in E.
  unfold context_fields in E. injection E as Ep El Es.
  unfold no_empty_field. rewrite Ep, El, Es. repeat split.
  - unfold make_listing. destruct (context_fields _) as [[? ?] ?]. simpl.
    unfold or_None.
    destruct (get_text_strip (txt " ") (tag_node a)); simpl; discriminate.
  - apply price_in_nonempty.
  - apply location_in_nonempty.
  - destruct (get_text_strip (txt " ") (tag_node anc)); simpl; discriminate.
Qed.

Lemma extract_listings_made html r :
  In r (extract_listings html) -> exists a, r = make_listing a (url r).
Proof.
  intros Hr. destruct (extract_listings_first html r Hr) as (a & _ & E). eauto.
Qed.
End CsvFacts.
(* ===================================================================== *)
(** ** Further properties of the script *)
(* ===================================================================== *)

(** X1. Two different page numbers, from 1 on, never share a URL. *)
Theorem page_urls_differ (p q : Z) :
  (1 <= p)%Z -> (1 <= q)%Z -> p <> q -> next_page_url p <> next_page_url q.
Proof. intros Hp Hq Hne E. apply Hne. now apply next_page_url_inj. Qed.

Lemma page_urls_differ_demo : next_page_url 1 <> next_page_url 2.
Proof. apply (page_urls_differ 1 2); lia. Defined.

(** X2. What a run of [scrape] leaves behind: no file is touched; it sleeps
    once, for [delay_sec], after each page it completed; it sends at most
    [max_pages] requests, one per page up to the page it stopped on; only
    that page can have added a line to [stderr]; and it prints one line per
    request, and one more unless the budget ran out. *)
Theorem scrape_effects `{P : Platform}
    (max_pages : Z) (delay_sec : Q) (w : world) :
  exists j w',
    scrape max_pages delay_sec w = (accumulated j, w')
    /\ completes (Z.to_nat max_pages) j
    /\ files w' = files w
    /\ slept w' = slept w ++ repeat delay_sec j
    /\ sent w'
       = sent w ++ map page_request (seq 1 (Nat.min (S j) (Z.to_nat max_pages)))
    /\ (length (sent w') <= length (sent w) + Z.to_nat max_pages)%nat
    /\ stderr w'
       = stderr w
         ++ (if decide (j = Z.to_nat max_pages) then []
             else fetch_log (next_page_url (Z.of_nat (S j))))
    /\ (length (stderr w') <= length (stderr w) + 1)%nat
    /\ length (stdout w')
       = (length (stdout w) + Nat.min (S j) (Z.to_nat max_pages)
          + if decide (j = Z.to_nat max_pages) then 0 else 1)%nat.
Proof.
  unfold scrape. rewrite py_range_pages.
  destruct (scrape_loop_effects (Z.to_nat max_pages) 0 delay_sec w)
    as (j & w' & Hrun & Hj & Hall & Hstop & Hfiles & Hslept & Hsent & Herr
        & Hout).
  simpl in Hrun. rewrite Nat.sub_0_r in Hslept, Hsent, Hout.
  rewrite Nat.add_0_l in Hstop, Herr, Hout.
  exists j, w'. split; [exact Hrun|]. split.
  { split; [lia|]. split; [intros q Hq; apply Hall; lia|exact Hstop]. }
  split; [exact Hfiles|]. split; [exact Hslept|]. split; [exact Hsent|].
  split. { rewrite Hsent, length_app, length_map, length_seq. lia. }
  split; [exact Herr|]. split; [|exact Hout].
  rewrite Herr, length_app.
  destruct (decide (j = Z.to_nat max_pages)); [simpl; lia|].
  pose proof (fetch_log_length (next_page_url (Z.of_nat (S j)))). lia.
Qed.

(** X3. With a budget of no page ([max_pages] zero or negative), [scrape]
    returns no row and does nothing: no request, no line, no pause. *)
Theorem scrape_without_budget `{P : Platform}
    (max_pages : Z) (delay_sec : Q) (w : world) :
  (max_pages <= 0)%Z -> scrape max_pages delay_sec w = ([], w).
Proof.
  intros H. unfold scrape. rewrite py_range_pages.
  replace (Z.to_nat max_pages) with 0%nat by lia. reflexivity.
Qed.

Lemma scrape_without_budget_demo :
  @scrape demo 0 (9 # 5) fresh = ([], fresh).
Proof. apply (@scrape_without_budget demo 0 (9 # 5) fresh). lia. Defined.

(** X4. A larger page budget never loses rows: the rows of a run are the
    first rows, in the same order, of a run with a larger budget. *)
Theorem scrape_rows_grow_with_budget `{P : Platform}
    (m m' : Z) (d d' : Q) (w w' : world) :
  (m <= m')%Z -> (scrape m d w).1 `prefix_of` (scrape m' d' w').1.
Proof.
  intros Hm.
  destruct (scrape_run m d w) as (j & w1 & -> & Hc & _).
  destruct (scrape_run m' d' w') as (j' & w1' & -> & Hc' & _).
  simpl. apply accumulated_prefix.
  apply (completes_mono _ _ _ _ Hc Hc'). lia.
Qed.

Lemma scrape_rows_grow_with_budget_demo :
  (@scrape demo 1 (9 # 5) fresh).1 `prefix_of` (@scrape demo 5 (9 # 5) fresh).1.
Proof.
  apply (@scrape_rows_grow_with_budget demo 1 5 (9 # 5) (9 # 5) fresh fresh).
  lia.
Defined.

(** X5. The records of a page come in document order and none is lost: their
    URLs are the URLs of the anchors that pass the [href] test, each kept at
    its first occurrence. *)
Theorem extract_urls_in_document_order `{P : Platform} (html : pystr) :
  map url (extract_listings html) = keep_first (card_urls html)
  /\ sublist (map url (extract_listings html)) (card_urls html)
  /\ (forall a u, In a (cards html) -> card_url a = Some u ->
        In u (map url (extract_listings html))).
Proof.
  rewrite extract_listings_urls. split; [reflexivity|].
  split; [apply keep_first_sublist|].
  intros a u Ha Hu. apply keep_first_In. unfold card_urls.
  apply list_elem_of_In, list_elem_of_omap. exists a.
  split; [now apply list_elem_of_In|assumption].
Qed.

(** X6. The test inside [extract_listings] and the test of [scrape] amount
    to one: the URLs of the rows [scrape] returns are the URLs of all the
    anchors of the pages it completed, in page and document order, each kept
    at its first occurrence. *)
Theorem scrape_urls_global_first `{P : Platform}
    (max_pages : Z) (delay_sec : Q) (w : world) :
  exists j,
    completes (Z.to_nat max_pages) j
    /\ map url (scrape max_pages delay_sec w).1
       = keep_first (flat_map page_card_urls (seq 1 j)).
Proof.
  destruct (scrape_run max_pages delay_sec w) as (j & w' & -> & Hc & _).
  exists j. split; [assumption|]. apply accumulated_urls.
Qed.

(** X7. The cells written for a record determine it: no optional field of
    an extracted record is an empty string, so an empty cell always stands
    for an absent field, and two different records give different rows. *)
Theorem different_records_different_rows `{P : Platform}
    (a1 a2 : tag) (u1 u2 : pystr) :
  make_listing a1 u1 <> make_listing a2 u2 ->
  csv_row (make_listing a1 u1) <> csv_row (make_listing a2 u2)
  /\ no_empty_field (make_listing a1 u1).
Proof.
  intros Hne. split; [|apply make_listing_no_empty].
  intros E. apply Hne. apply csv_row_inj; auto using make_listing_no_empty.
Qed.

Lemma different_records_different_rows_demo :
  csv_row (@make_listing demo first_anchor (txt "https://www.olx.in/item/1"))
  <> csv_row (@make_listing demo third_anchor (txt "https://www.olx.in/item/3")).
Proof.
  apply (@different_records_different_rows demo first_anchor third_anchor).
  intros E. vm_compute in E. discriminate E.
Defined.

(** X8. A run of the whole script writes the output file exactly when
    [scrape] returned a row: the header, then one row per record in order;
    no other file changes, the URLs of the written rows differ pairwise, and
    the last line printed is "[done]". *)
Theorem main_writes_rows_or_nothing `{P : Platform}
    (max_pages : Z) (w : world) :
  exists j,
    completes (Z.to_nat max_pages) j
    /\ (scrape max_pages (9 # 5) w).1 = accumulated j
    /\ files (main max_pages w).2
       = match accumulated j with
         | [] => files w
         | _ :: _ =>
           <[OUTPUT_CSV := fieldnames :: map csv_row (accumulated j)]> (files w)
         end
    /\ (forall other, other <> OUTPUT_CSV ->
          files (main max_pages w).2 !! other = files w !! other)
    /\ NoDup (map url (accumulated j))
    /\ last (stdout (main max_pages w).2) = Some (txt "[done]").
Proof.
  destruct (scrape_run max_pages (9 # 5) w) as (j & w1 & Hrun & Hc & _ & Hf).
  exists j. split; [assumption|]. split; [now rewrite Hrun|].
  unfold main, bind. rewrite Hrun.
  destruct (accumulated j) as [|r rows] eqn:Ha.
  - cbn [save_csv]. unfold print. cbn [snd files stdout].
    split; [exact Hf|]. split; [intros; now rewrite Hf|].
    split; [constructor|]. apply last_snoc.
  - cbn [save_csv]. unfold bind, write_file, print. cbn [snd files stdout].
    rewrite Hf. split; [reflexivity|].
    split; [intros other Hne; now apply lookup_insert_ne|].
    split; [rewrite <- Ha; apply accumulated_NoDup|]. apply last_snoc.
Qed.

(** X9. [fetch_page] returns the body exactly when the status is 200, also
    when that body is empty.  It sends one request, with the script's headers
    and timeout; it prints nothing to [stdout], touches no file and does not
    sleep; it writes one line to [stderr] when it returns [None], and none
    when it returns a body. *)
Theorem fetch_page_outcome `{P : Platform} (u : pystr) (w : world) :
  let '(r, w') := fetch_page u w in
  (forall text,
     r = Some text <-> session_get (request_for u) = Response 200 text)
  /\ sent w'
     = sent w ++ [{| req_url := u; req_headers := HEADERS; req_timeout := 20 |}]
  /\ stdout w' = stdout w /\ files w' = files w /\ slept w' = slept w
  /\ match r with
     | Some _ => stderr w' = stderr w
     | None => exists line, stderr w' = stderr w ++ [line]
     end.
Proof.
  rewrite fetch_page_eq. unfold fetched, fetch_log. cbn [sent stdout files slept stderr].
  destruct (session_get (request_for u)) as [sc text|e].
  - destruct (Z.eqb_spec sc 200) as [->|Hne].
    + split; [intros t; split; congruence|].
      repeat split; auto. apply app_nil_r.
    + split; [intros t; split; [discriminate|intros [= E _]; contradiction]|].
      repeat split; auto. eauto.
  - split; [intros t; split; discriminate|]. repeat split; auto. eauto.
Qed.

(** X10. [save_csv] on at least one row replaces the file at [path] by the
    header and one row per record, each of five cells; it touches no other
    file and prints the number of rows.  Saving the same rows again changes
    no file, and a later save of no row leaves the written file in place. *)
Theorem save_csv_writes_table
    (rows : list listing) (path : pystr) (w : world) :
  rows <> [] ->
  let w' := (save_csv rows path w).2 in
  files w' !! path = Some (fieldnames :: map csv_row rows)
  /\ (forall other, other <> path -> files w' !! other = files w !! other)
  /\ length (fieldnames :: map csv_row rows) = S (length rows)
  /\ Forall (fun row => length row = 5%nat) (fieldnames :: map csv_row rows)
  /\ stdout w'
     = stdout w
       ++ [txt "[info] Saved " ++ str_of_int (Z.of_nat (length rows))
           ++ txt " rows to " ++ path]
  /\ files (save_csv rows path w').2 = files w'
  /\ files (save_csv [] path w').2 !! path
     = Some (fieldnames :: map csv_row rows).
Proof.
  intros Hne. destruct rows as [|r rows]; [congruence|]. cbv zeta.
  cbn [save_csv]. unfold bind, write_file, print. cbn [snd files stdout].
  split; [apply lookup_insert_eq|].
  split; [intros other Ho; now apply lookup_insert_ne|].
  split; [cbn [length]; now rewrite length_map|].
  split.
  { constructor; [reflexivity|]. apply Forall_forall. intros row Hrow.
    apply list_elem_of_In, in_map_iff in Hrow as (x & <- & _). reflexivity. }
  split; [reflexivity|]. split; [apply insert_insert_eq|].
  apply lookup_insert_eq.
Qed.

Lemma save_csv_writes_table_demo :
  files (save_csv (@extract_listings demo page_one_html) OUTPUT_CSV fresh).2
    !! OUTPUT_CSV
  = Some (fieldnames :: map csv_row (@extract_listings demo page_one_html)).
Proof.
  apply (save_csv_writes_table (@extract_listings demo page_one_html)
                               OUTPUT_CSV fresh).
  intros E. vm_compute in E. discriminate E.
Defined.

(** The first line [scrape] prints, and the world when page 1 has a body but
    no new row. *)
Lemma scrape_first_page_no_rows `{P : Platform}
    (max_pages : Z) (delay_sec : Q) (w : world) :
  (1 <= max_pages)%Z -> no_html (fetched BASE_URL) = false ->
  card_urls (body_of (fetched BASE_URL)) = [] ->
  scrape max_pages delay_sec w = ([], no_new_world 1 w).
Proof.
  intros Hmax Hf Hc. unfold scrape. rewrite py_range_pages.
  destruct (Z.to_nat max_pages) as [|n] eqn:En; [lia|]. cbn [seq map].
  change (Z.of_nat 1) with 1%Z.
  rewrite scrape_loop_html
    by (change (next_page_url 1) with BASE_URL; exact Hf).
  cbv zeta. change (next_page_url 1) with BASE_URL.
  assert (extract_listings (body_of (fetched BASE_URL)) = []) as ->.
  { apply (map_eq_nil url). now rewrite extract_listings_urls, Hc. }
  reflexivity.
Qed.

(** X11. When page 1 is fetched with a body that has no listing anchor with
    a usable [href], [scrape] stops there: one request, the two lines
    "Fetching page 1" and "No new rows found; stopping.", no pause, no row;
    and the whole script then writes no file. *)
Theorem first_page_without_listings `{P : Platform}
    (max_pages : Z) (delay_sec : Q) (w : world) :
  (1 <= max_pages)%Z -> no_html (fetched BASE_URL) = false ->
  card_urls (body_of (fetched BASE_URL)) = [] ->
  let '(rows, w') := scrape max_pages delay_sec w in
  rows = []
  /\ sent w' = sent w ++ [request_for BASE_URL]
  /\ stdout w'
     = stdout w
       ++ [txt "[info] Fetching page 1: https://www.olx.in/items/q-car-cover";
           txt "[info] No new rows found; stopping."]
  /\ slept w' = slept w
  /\ files (main max_pages w).2 = files w.
Proof.
  intros Hmax Hf Hc.
  unfold main, bind.
  rewrite !(scrape_first_page_no_rows max_pages _ w Hmax Hf Hc).
  cbn [save_csv]. unfold print, no_new_world.
  cbn [snd stdout stderr files sent slept].
  change (next_page_url 1) with BASE_URL.
  change (str_of_int 1) with (str_of_int (Z.of_nat 1)).
  rewrite fetching_page_one. repeat split; reflexivity.
Qed.

Lemma first_page_without_listings_demo :
  let '(rows, w') := @scrape demo_bare 3 (9 # 5) fresh in
  rows = []
  /\ sent w' = sent fresh ++ [request_for BASE_URL]
  /\ stdout w'
     = stdout fresh
       ++ [txt "[info] Fetching page 1: https://www.olx.in/items/q-car-cover";
           txt "[info] No new rows found; stopping."]
  /\ slept w' = slept fresh
  /\ files (@main demo_bare 3 fresh).2 = files fresh.
Proof.
  apply (@first_page_without_listings demo_bare 3 (9 # 5) fresh).
  - lia.
  - vm_compute. reflexivity.
  - vm_compute. reflexivity.
Defined.

Lemma completes_same `{P : Platform} (n j j' : nat) :
  completes n j -> completes n j' -> j = j'.
Proof.
  intros H H'. apply Nat.le_antisymm.
  - now apply (completes_mono n n j j').
  - now apply (completes_mono n n j' j).
Qed.

Lemma main_files `{P : Platform} (max_pages : Z) (w : world) :
  exists j,
    completes (Z.to_nat max_pages) j
    /\ files (main max_pages w).2
       = match accumulated j with
         | [] => files w
         | _ :: _ =>
           <[OUTPUT_CSV := fieldnames :: map csv_row (accumulated j)]> (files w)
         end.
Proof.
  destruct (scrape_run max_pages (9 # 5) w) as (j & w1 & Hrun & Hc & _ & Hf).
  exists j. split; [assumption|]. unfold main, bind. rewrite Hrun.
  destruct (accumulated j) as [|r rows].
  - cbn [save_csv]. unfold print. cbn [snd files]. exact Hf.
  - cbn [save_csv]. unfold bind, write_file, print. cbn [snd files].
    now rewrite Hf.
Qed.

(** X12. Running the script again, against a site that answers the same,
    leaves every file as the first run left it: the second run gathers the
    same rows and writes the same table over the first. *)
Theorem main_rerun_same_files `{P : Platform} (max_pages : Z) (w : world) :
  files (main max_pages (main max_pages w).2).2 = files (main max_pages w).2.
Proof.
  destruct (main_files max_pages (main max_pages w).2) as (j' & Hc' & ->).
  destruct (main_files max_pages w) as (j & Hc & ->).
  rewrite (completes_same _ _ _ Hc' Hc).
  destruct (accumulated j); [reflexivity|]. apply insert_insert_eq.
Qed.

(** X13. A context text without the sign ₹ gives no price, one without a
    capital letter A-Z gives no location, and an empty one gives neither,
    nor a snippet. *)
Theorem guesses_absent_without_marks `{P : Platform}
    (a : tag) (u text : pystr) :
  context_text a = Some text ->
  (~ In rupee text -> price_guess (make_listing a u) = None)
  /\ ((forall c, In c text -> upper c = false) ->
      location_guess (make_listing a u) = None)
  /\ (text = [] ->
      price_guess (make_listing a u) = None
      /\ location_guess (make_listing a u) = None
      /\ snippet (make_listing a u) = None).
Proof.
  intros Hc.
  rewrite (price_guess_text a u text Hc), (location_guess_text a u text Hc),
    (snippet_text a u text Hc).
  assert (~ In rupee text -> price_in text = None) as Hprice.
  { intros Hno. destruct (price_in text) as [p|] eqn:Hp; [|reflexivity].
    apply price_in_some in Hp as (pre & post & -> & (ws & ds & -> & _) & _).
    exfalso. apply Hno. apply in_or_app. right. now left. }
  assert ((forall c, In c text -> upper c = false) -> location_in text = None)
    as Hloc.
  { intros Hno. destruct (location_in text) as [loc|] eqn:Hl; [|reflexivity].
    apply location_in_some in Hl
      as (pre & m & grp & post & -> & Hs & _).
    destruct Hs as (conn & ws & c & tail & -> & -> & _ & _ & _ & Hup & _).
    exfalso. rewrite Hno in Hup; [discriminate|].
    apply in_or_app. right. apply in_or_app. left.
    apply in_or_app. right. apply in_or_app. right. now left. }
  split; [exact Hprice|]. split; [exact Hloc|].
  intros ->. split; [apply Hprice; intros []|].
  split; [apply Hloc; intros c []|reflexivity].
Qed.

Lemma guesses_absent_without_marks_demo :
  context_text plain_anchor = Some (txt "plain cover")
  /\ price_guess (@make_listing demo plain_anchor []) = None.
Proof.
  assert (context_text plain_anchor = Some (txt "plain cover")) as Hc
    by (vm_compute; reflexivity).
  split; [exact Hc|].
  destruct (@guesses_absent_without_marks demo plain_anchor [] _ Hc)
    as [Hp _].
  apply Hp. vm_compute. intros H.
  repeat (destruct H as [H|H]; [discriminate H|]). exact H.
Defined.
